(** * pyrobbot: voice dialog engine, token ledger and page queue filter

    A shallow embedding of the parts of the repository that the
    specification talks about:

    - [PyStr]: the Python [str] operations used by the sentence chunker;
    - [VoiceChat]: [VoiceChat.answer_question], the consumer loop of
      [VoiceChat.start], and the loop bodies of the worker threads
      ([handle_tts_queue], [handle_speech_queue],
      [handle_update_audio_history], [handle_question_listening]);
    - [Tokens]: [TokenUsageDatabase] of [chat_gpt/tokens.py];
    - [AppUtils]: [filter_page_info_from_queue] of [app/app_utils.py].

    Conventions.  A Python [str] is a [string] whose characters are the
    code points 0..255.  A Python [float] / SQLite [REAL] (prices, costs,
    timestamps, durations) is an exact rational of [Q], compared with
    [==].  Queues are lists, oldest element first.  Values read from the
    outside world (the LLM stream, the clock, the event flags, the
    speech-to-text answer) are arguments of the functions that read
    them. *)

From Stdlib Require Import Bool Arith ZArith QArith Qminmax Lia Lqa List.
From Stdlib Require Import Ascii String Permutation.
Import ListNotations.

Close Scope Q_scope.
Open Scope string_scope.
Open Scope list_scope.
Open Scope nat_scope.

(* ===================================================================== *)
(** * Python string operations                                            *)
(* ===================================================================== *)

Module PyStr.

(** [str.isspace] on one character, code points 0..255:
    TAB..CR, FS..US, SPACE, NEL (0x85) and NBSP (0xA0). *)
Definition isspace (c : ascii) : bool :=
  let n := nat_of_ascii c in
  ((9 <=? n) && (n <=? 13)) || ((28 <=? n) && (n <=? 32))
  || (n =? 133) || (n =? 160).

(** [str.isdigit] on one character, code points 0..255:
    '0'..'9' and the superscripts 0xB2, 0xB3, 0xB9. *)
Definition isdigit (c : ascii) : bool :=
  let n := nat_of_ascii c in
  ((48 <=? n) && (n <=? 57)) || (n =? 178) || (n =? 179) || (n =? 185).

Fixpoint lstrip (s : string) : string :=
  match s with
  | EmptyString => EmptyString
  | String c t => if isspace c then lstrip t else s
  end.

Fixpoint rstrip (s : string) : string :=
  match s with
  | EmptyString => EmptyString
  | String c t =>
      match rstrip t with
      | EmptyString => if isspace c then EmptyString else String c EmptyString
      | t' => String c t'
      end
  end.

(** [s.strip()] *)
Definition strip (s : string) : string := lstrip (rstrip s).

(** [s.endswith(suffix)] *)
Fixpoint endswith (s suffix : string) : bool :=
  if String.eqb s suffix then true
  else match s with
       | EmptyString => false
       | String _ t => endswith t suffix
       end.

(** [s.endswith((a, b, ...))] with a tuple of suffixes *)
Definition endswith_any (s : string) (suffixes : list string) : bool :=
  existsb (endswith s) suffixes.

(** [s[-k]] for [k >= 1]; [None] stands for [IndexError]. *)
Definition index_from_end (s : string) (k : nat) : option ascii :=
  if (1 <=? k) && (k <=? String.length s)
  then String.get (String.length s - k) s
  else None.

(** truth value of a string: non-empty *)
Definition truthy (s : string) : bool :=
  match s with EmptyString => false | _ => true end.

End PyStr.

(* ===================================================================== *)
(** * voice_chat.py                                                       *)
(* ===================================================================== *)

Module VoiceChat.

(** One chunk of the streamed reply ([chunk.content], [chunk.chunk_type]). *)
Record AnswerChunk := {
  content : string;
  chunk_type : string
}.

(** The two [threading.Event]s, as read at one program point. *)
Record Flags := {
  interrupt_reply : bool;
  exit_chat : bool
}.

(** What [answer_question] does that the rest of the program can see:
    it yields a chunk to its caller, or puts an item on
    [tts_conversion_queue] ([None] is the end-of-reply sentinel). *)
Inductive event :=
| Yield (c : AnswerChunk)
| TtsPut (item : option string).

(** How the generator ends: by running off its end, or by the
    [raise StopIteration] of line 178 (which, raised inside a generator,
    reaches the caller as an error and not as the normal end of the
    iteration). *)
Inductive outcome := Returned | RaisedStopIteration.

(** Lines 181-194: the loop body after the [yield].  Returns the new
    [sentence_for_tts] and the sentences put on the TTS queue. *)
Definition speak_chunk (reply_only_as_text : bool) (sentence_for_tts : string)
    (answer_chunk : AnswerChunk) : string * list string :=
  if String.eqb (chunk_type answer_chunk) "text" && negb reply_only_as_text then
    let sentence_for_tts := (sentence_for_tts ++ content answer_chunk)%string in
    let stripd_chunk := PyStr.strip (content answer_chunk) in
    if PyStr.endswith_any stripd_chunk ["?"; "!"; "."] then
      if PyStr.endswith stripd_chunk "." then
        match PyStr.index_from_end (PyStr.strip sentence_for_tts) 2 with
        | Some previous_char =>
            if PyStr.isdigit previous_char
            then (sentence_for_tts, [])                (* continue *)
            else (EmptyString, [sentence_for_tts])
        | None => (EmptyString, [sentence_for_tts])    (* IndexError suppressed *)
        end
      else (EmptyString, [sentence_for_tts])
    else (sentence_for_tts, [])
  else (sentence_for_tts, []).

(** Lines 175-194: the [for] loop over the LLM stream.  Each stream
    element comes with the flags as they are read when it arrives.
    The result is the trace of events and the final
    [sentence_for_tts], or [None] if the loop was left by the raise. *)
Fixpoint reply_loop (reply_only_as_text : bool)
    (stream : list (Flags * AnswerChunk)) (sentence_for_tts : string)
    : list event * option string :=
  match stream with
  | [] => ([], Some sentence_for_tts)
  | (fl, answer_chunk) :: rest =>
      if interrupt_reply fl || exit_chat fl then ([], None)
      else
        let '(sentence', puts) :=
          speak_chunk reply_only_as_text sentence_for_tts answer_chunk in
        let '(evs, final) := reply_loop reply_only_as_text rest sentence' in
        (Yield answer_chunk :: map (fun s => TtsPut (Some s)) puts ++ evs, final)
  end.

(** Lines 168-200. *)
Definition answer_question (reply_only_as_text : bool)
    (stream : list (Flags * AnswerChunk)) : list event * outcome :=
  match reply_loop reply_only_as_text stream EmptyString with
  | (evs, None) => (evs, RaisedStopIteration)
  | (evs, Some sentence_for_tts) =>
      (evs
       ++ (if PyStr.truthy sentence_for_tts && negb reply_only_as_text
           then [TtsPut (Some sentence_for_tts)] else [])
       ++ [TtsPut None],
       Returned)
  end.

(** Items put on [tts_conversion_queue] by a trace, in order. *)
Fixpoint tts_puts (evs : list event) : list (option string) :=
  match evs with
  | [] => []
  | Yield _ :: r => tts_puts r
  | TtsPut x :: r => x :: tts_puts r
  end.

(** Sentences put on the TTS queue from inside the loop, i.e. the
    places where the chunker splits the reply before its end. *)
Definition split_sentences (reply_only_as_text : bool)
    (stream : list (Flags * AnswerChunk)) : list string :=
  flat_map (fun e => match e with TtsPut (Some s) => [s] | _ => [] end)
           (fst (reply_loop reply_only_as_text stream EmptyString)).

Definition newline : string := String "010" EmptyString.

(** Lines 149-161 of [start]: the consumer of the generator.  [msg] is
    the translated notice.  The generator runs only when the consumer
    asks for the next chunk, so the consumer's own put for a yielded
    chunk comes before the puts the generator makes after that yield.
    Returns the items put on [tts_conversion_queue] during the turn
    and the strings printed. *)
Fixpoint consume_reply (msg : string) (evs : list event) (fin : outcome)
    (info_printed : bool) : list (option string) * list string :=
  match evs with
  | [] =>
      ([], match fin with
           | Returned => if info_printed then [(newline ++ newline)%string] else []
           | RaisedStopIteration => []
           end)
  | TtsPut x :: r =>
      let '(q, out) := consume_reply msg r fin info_printed in (x :: q, out)
  | Yield chunk :: r =>
      if negb (String.eqb (chunk_type chunk) "code")
      then consume_reply msg r fin info_printed
      else
        let '(q, out) := consume_reply msg r fin true in
        ((if info_printed then [] else [Some msg]) ++ q, content chunk :: out)
  end.

(** One turn of [start] after a question was taken from the queue. *)
Definition start_turn (msg : string) (reply_only_as_text : bool)
    (stream : list (Flags * AnswerChunk)) : list (option string) * list string :=
  let '(evs, fin) := answer_question reply_only_as_text stream in
  consume_reply msg evs fin false.

Definition text_chunk (s : string) : Flags * AnswerChunk :=
  ({| interrupt_reply := false; exit_chat := false |},
   {| content := s; chunk_type := "text" |}).

Definition code_chunk (s : string) : Flags * AnswerChunk :=
  ({| interrupt_reply := false; exit_chat := false |},
   {| content := s; chunk_type := "code" |}).

(** ** The worker threads

    An [AudioSegment] is kept abstract: the workers only concatenate
    segments and read their duration. *)
Section Workers.

Variable AudioSegment : Type.
Variable empty : AudioSegment.                          (* AudioSegment.empty() *)
Variable add : AudioSegment -> AudioSegment -> AudioSegment.   (* a + b *)
Variable duration_seconds : AudioSegment -> Q.

(** The attributes of [self] that the workers read. *)
Record Configs := {
  min_speech_duration_seconds : Q;
  exit_expressions : list string;
  audio_cache_dir : string
}.

Definition Qltb (a b : Q) : bool := negb (Qle_bool b a).

(** *** handle_update_audio_history (lines 202-244) *)

Record HistoryState := {
  merged_audio : AudioSegment;
  (** paths given to [update_last_message_exchange_with_audio] *)
  history_audio_paths : list string;
  (** mp3 files written by [export] *)
  exported_files : list (string * AudioSegment);
  (** items put on [last_answer_full_audio_fpath] *)
  published_paths : list (option string);
  (** number of [task_done] calls on the input queue *)
  tasks_done : nat
}.

(** [self.audio_cache_dir() / f"{datetime.now().isoformat()}.mp3"],
    [now] being the ISO-8601 text of the clock reading. *)
Definition audio_file_path (cfg : Configs) (now : string) : string :=
  (audio_cache_dir cfg ++ "/" ++ now ++ ".mp3")%string.

(** One iteration of the [while] loop for the queue item [new_audio].
    [db_ok] and [export_ok] tell whether the call to the history
    database and the call to [export] return; when one of them
    raises, the [except] clause logs the error and the iteration
    ends there. *)
Definition handle_update_audio_history_step (cfg : Configs) (now : string)
    (db_ok export_ok : bool) (st : HistoryState)
    (new_audio : option AudioSegment) : HistoryState :=
  match new_audio with
  | Some new_audio =>
      {| merged_audio := add (merged_audio st) new_audio;
         history_audio_paths := history_audio_paths st;
         exported_files := exported_files st;
         published_paths := published_paths st;
         tasks_done := S (tasks_done st) |}
  | None =>
      if Qltb (duration_seconds (merged_audio st)) (min_speech_duration_seconds cfg)
      then
        {| merged_audio := empty;
           history_audio_paths := history_audio_paths st;
           exported_files := exported_files st;
           published_paths := published_paths st ++ [None];
           tasks_done := S (tasks_done st) |}
      else
        let audio_file_path := audio_file_path cfg now in
        if negb db_ok then st
        else if negb export_ok then
          {| merged_audio := merged_audio st;
             history_audio_paths := history_audio_paths st ++ [audio_file_path];
             exported_files := exported_files st;
             published_paths := published_paths st;
             tasks_done := tasks_done st |}
        else
          {| merged_audio := empty;
             history_audio_paths := history_audio_paths st ++ [audio_file_path];
             exported_files :=
               exported_files st ++ [(audio_file_path, merged_audio st)];
             published_paths := published_paths st ++ [Some audio_file_path];
             tasks_done := S (tasks_done st) |}
  end.

(** *** handle_tts_queue (lines 424-453) and handle_speech_queue (412-422) *)

(** The object returned by [self.tts(text)]. *)
Record TextToSpeech := {
  tts_text : string;
  speech : AudioSegment
}.

Inductive tts_effect :=
| AnswerAudioPut (item : option AudioSegment)   (* current_answer_audios_queue.put *)
| PlaySpeechPut (item : option TextToSpeech).   (* play_speech_queue.put *)

(** One iteration of [handle_tts_queue] for the queue item [text];
    [synth] is the text-to-speech service. *)
Definition handle_tts_queue_step (synth : string -> AudioSegment)
    (fl : Flags) (text : option string) : list tts_effect :=
  match text with
  | None => [AnswerAudioPut None; PlaySpeechPut None]
  | Some text =>
      let text := PyStr.strip text in
      if PyStr.truthy text && negb (interrupt_reply fl) then
        let tts := {| tts_text := text; speech := synth text |} in
        [AnswerAudioPut (Some (speech tts)); PlaySpeechPut (Some tts)]
      else []
  end.

(** One iteration of [handle_speech_queue]: the items handed to
    [speak]. *)
Definition handle_speech_queue_step (fl : Flags)
    (speech : option TextToSpeech) : list TextToSpeech :=
  match speech with
  | Some speech => if negb (interrupt_reply fl) then [speech] else []
  | None => []
  end.

(** *** handle_question_listening (lines 378-410) *)

Inductive listen_effect :=
| SttCall (audio : AudioSegment)                 (* self.stt(speech=audio) *)
| QuestionPut (item : option string).            (* questions_queue.put *)

Definition minimum_prompt_duration_seconds : Q := 0.05%Q.

(** One iteration of the loop once [listen] has returned [audio].
    [stt] is the speech-to-text service; [get_lower_alphanumeric]
    is [general_utils._get_lower_alphanumeric], which is not part of
    the sources at hand. *)
Definition handle_question_listening_step (cfg : Configs)
    (stt : AudioSegment -> string)
    (get_lower_alphanumeric : string -> string)
    (audio : option AudioSegment) : list listen_effect :=
  match audio with
  | None => [QuestionPut None]
  | Some audio =>
      if Qltb (duration_seconds audio) minimum_prompt_duration_seconds then []
      else
        let question := stt audio in
        SttCall audio ::
        (if existsb (fun expr =>
                       String.prefix (get_lower_alphanumeric expr)
                                     (get_lower_alphanumeric question))
                    (exit_expressions cfg)
         then [QuestionPut None]
         else if PyStr.truthy question then [QuestionPut (Some question)]
         else [])
  end.

End Workers.

End VoiceChat.

(* ===================================================================== *)
(** * chat_gpt/tokens.py                                                  *)
(* ===================================================================== *)

Module Tokens.

Record Price := { input : Q; output : Q }.

Definition PRICE_PER_THOUSAND_TOKENS : list (option string * Price) :=
  [ (Some "gpt-3.5-turbo", {| input := 0.0015; output := 0.002 |});
    (Some "gpt-4", {| input := 0.03; output := 0.06 |});
    (Some "text-embedding-ada-002", {| input := 0.0001; output := 0.0 |});
    (None, {| input := 0.0; output := 0.0 |}) ]%Q.

Definition key_eqb (a b : option string) : bool :=
  match a, b with
  | Some x, Some y => String.eqb x y
  | None, None => true
  | _, _ => false
  end.

(** [d[k]] on a dict given by its items; [None] stands for [KeyError]. *)
Fixpoint dict_get {V : Type} (d : list (option string * V)) (k : option string)
    : option V :=
  match d with
  | [] => None
  | (k', v) :: rest => if key_eqb k' k then Some v else dict_get rest k
  end.

(** [self.token_price], built by [__init__]. *)
Definition token_price : list (option string * Price) :=
  map (fun '(model, price_per_k_tokens) =>
         (model, {| input := (input price_per_k_tokens / 1000)%Q;
                    output := (output price_per_k_tokens / 1000)%Q |}))
      PRICE_PER_THOUSAND_TOKENS.

(** A row of the table [token_costs]. *)
Record TokenRecord := {
  timestamp : Q;
  model : string;
  n_input_tokens : Z;
  n_output_tokens : Z;
  cost_input_tokens : Q;
  cost_output_tokens : Q
}.

(** The table, oldest row first. *)
Definition Table := list TokenRecord.

(** [INSERT OR REPLACE] with [timestamp] as primary key. *)
Definition insert_or_replace (r : TokenRecord) (db : Table) : Table :=
  filter (fun r' => negb (Qeq_bool (timestamp r') (timestamp r))) db ++ [r].

Inductive result (A : Type) :=
| Ok (a : A)
| KeyError (key : string).
Arguments Ok {A} a.
Arguments KeyError {A} key.

(** [insert_data]; [now] is [datetime.utcnow().timestamp()]. *)
Definition insert_data (now : Q) (model : option string)
    (n_input_tokens n_output_tokens : Z) (db : Table) : result Table :=
  match model with
  | None => Ok db
  | Some m =>
      match dict_get token_price (Some m) with
      | None => KeyError m
      | Some price =>
          Ok (insert_or_replace
                {| timestamp := now;
                   model := m;
                   n_input_tokens := n_input_tokens;
                   n_output_tokens := n_output_tokens;
                   cost_input_tokens := (inject_Z n_input_tokens * input price)%Q;
                   cost_output_tokens := (inject_Z n_output_tokens * output price)%Q |}
                db)
      end
  end.

(** The values of one entry of [sums_by_model]; also the value of
    [retrieve_sums], a [defaultdict(int)] read at these five keys. *)
Record Sums := {
  earliest_timestamp : Q;
  total_n_input_tokens : Z;
  total_n_output_tokens : Z;
  total_cost_input_tokens : Q;
  total_cost_output_tokens : Q
}.

Definition Zsum (l : list Z) : Z := fold_right Z.add 0%Z l.
Definition Qsum (l : list Q) : Q := fold_right Qplus 0%Q l.

(** [MIN(timestamp)] of a group whose first row has timestamp [t]. *)
Definition Qminimum (t : Q) (l : list Q) : Q := fold_right Qmin t l.

(** The aggregates of one [GROUP BY] group; a group has a row. *)
Definition aggregate (rows : list TokenRecord) : option Sums :=
  match rows with
  | [] => None
  | r :: rest =>
      Some {| earliest_timestamp := Qminimum (timestamp r) (map timestamp rest);
              total_n_input_tokens := Zsum (map n_input_tokens rows);
              total_n_output_tokens := Zsum (map n_output_tokens rows);
              total_cost_input_tokens := Qsum (map cost_input_tokens rows);
              total_cost_output_tokens := Qsum (map cost_output_tokens rows) |}
  end.

Definition rows_of (m : string) (db : Table) : list TokenRecord :=
  filter (fun r => String.eqb (model r) m) db.

(** The group keys of [GROUP BY model]. *)
Definition models (db : Table) : list string :=
  nodup string_dec (map model db).

(** [retrieve_sums_by_model]: the dict, as its list of items. *)
Definition retrieve_sums_by_model (db : Table) : list (string * Sums) :=
  flat_map (fun m => match aggregate (rows_of m db) with
                     | Some sums => [(m, sums)]
                     | None => []
                     end)
           (models db).

(** [sums_by_model.get(m)] *)
Fixpoint sums_get (m : string) (d : list (string * Sums)) : option Sums :=
  match d with
  | [] => None
  | (m', s) :: rest => if String.eqb m' m then Some s else sums_get m rest
  end.

Definition no_sums : Sums :=
  {| earliest_timestamp := 0; total_n_input_tokens := 0;
     total_n_output_tokens := 0; total_cost_input_tokens := 0;
     total_cost_output_tokens := 0 |}%Q%Z.

(** [sums[k] += v] for the five keys of one entry. *)
Definition add_sums (sums v : Sums) : Sums :=
  {| earliest_timestamp := (earliest_timestamp sums + earliest_timestamp v)%Q;
     total_n_input_tokens := (total_n_input_tokens sums + total_n_input_tokens v)%Z;
     total_n_output_tokens := (total_n_output_tokens sums + total_n_output_tokens v)%Z;
     total_cost_input_tokens :=
       (total_cost_input_tokens sums + total_cost_input_tokens v)%Q;
     total_cost_output_tokens :=
       (total_cost_output_tokens sums + total_cost_output_tokens v)%Q |}.

(** [retrieve_sums] *)
Definition retrieve_sums (db : Table) : Sums :=
  fold_left (fun sums entry => add_sums sums (snd entry))
            (retrieve_sums_by_model db) no_sums.

(** A call [insert_data(model, n_in, n_out)] made when the clock reads
    [called_at]. *)
Record Call := {
  called_at : Q;
  call_model : option string;
  call_n_input : Z;
  call_n_output : Z
}.

(** A sequence of calls on a table; a call that raises leaves the
    table as it was. *)
Fixpoint insert_all (calls : list Call) (db : Table) : Table :=
  match calls with
  | [] => db
  | c :: rest =>
      match insert_data (called_at c) (call_model c)
                        (call_n_input c) (call_n_output c) db with
      | Ok db' => insert_all rest db'
      | KeyError _ => insert_all rest db
      end
  end.

End Tokens.

(* ===================================================================== *)
(** * app/app_utils.py                                                    *)
(* ===================================================================== *)

Module AppUtils.

Record AppPage := { page_id : string }.

(** A queue entry: a dict with the key ["page"] and further data. *)
Record Entry (A : Type) := {
  page : AppPage;
  data : A
}.
Arguments page {A} e.
Arguments data {A} e.

(** The [while the_queue.queue] loop: [popleft] from the queue, [put]
    at the end of one of the two new queues. *)
Fixpoint filter_loop {A : Type} (app_page : AppPage)
    (the_queue queue_with_only_entries_from_other_pages items_from_page_queue
       : list (Entry A)) : list (Entry A) * list (Entry A) :=
  match the_queue with
  | [] => (items_from_page_queue, queue_with_only_entries_from_other_pages)
  | original_queue_entry :: rest =>
      if String.eqb (page_id (page original_queue_entry)) (page_id app_page)
      then filter_loop app_page rest
             queue_with_only_entries_from_other_pages
             (items_from_page_queue ++ [original_queue_entry])
      else filter_loop app_page rest
             (queue_with_only_entries_from_other_pages ++ [original_queue_entry])
             items_from_page_queue
  end.

(** Returns the returned queue and the new content of [the_queue]. *)
Definition filter_page_info_from_queue {A : Type} (app_page : AppPage)
    (the_queue : list (Entry A)) : list (Entry A) * list (Entry A) :=
  filter_loop app_page the_queue [] [].

End AppUtils.

(* ===================================================================== *)
(** * The loops around the worker steps, and the consumers of the web app *)
(* ===================================================================== *)

Module Loops.
Import PyStr VoiceChat.

(** [AsyncReplier.queue_text_chunks] (app_utils.py, lines 64-68) and
    [_put_chat_reply_chunks_in_queue] (app_page_templates.py): the
    content of every chunk handed out by [answer_question] is put on
    the text queue; the closing [None] is put after the loop, which the
    raise of the generator does not reach. *)
Definition queue_text_chunks (evs : list event) (fin : outcome)
    : list (option string) :=
  flat_map (fun e => match e with
                     | Yield chunk => [Some (content chunk)]
                     | TtsPut _ => []
                     end) evs
  ++ match fin with
     | Returned => [None]
     | RaisedStopIteration => []
     end.

Section WorkerLoops.

Variable AudioSegment : Type.
Variable empty : AudioSegment.
Variable add : AudioSegment -> AudioSegment -> AudioSegment.
Variable duration_seconds : AudioSegment -> Q.

(** [handle_tts_queue] (lines 424-453) over the items it takes from the
    queue.  An item comes with the flags as the iteration reads them:
    [exit_chat] at the head of the [while], [interrupt_reply] at the
    guard.  With [exit_chat] set the loop ends and takes no item. *)
Fixpoint handle_tts_queue (synth : string -> AudioSegment)
    (text_queue : list (Flags * option string))
    : list (tts_effect AudioSegment) :=
  match text_queue with
  | [] => []
  | (fl, text) :: rest =>
      if exit_chat fl then []
      else handle_tts_queue_step AudioSegment synth fl text
           ++ handle_tts_queue synth rest
  end.

(** Items put on [play_speech_queue], in order. *)
Definition play_speech_puts (effs : list (tts_effect AudioSegment))
    : list (option (TextToSpeech AudioSegment)) :=
  flat_map (fun e => match e with
                     | PlaySpeechPut _ x => [x]
                     | AnswerAudioPut _ _ => []
                     end) effs.

(** Items put on [current_answer_audios_queue], in order. *)
Definition answer_audio_puts (effs : list (tts_effect AudioSegment))
    : list (option AudioSegment) :=
  flat_map (fun e => match e with
                     | AnswerAudioPut _ x => [x]
                     | PlaySpeechPut _ _ => []
                     end) effs.

(** [handle_speech_queue] (lines 412-422) over the items it takes from
    the queue: the items handed to [speak], in order. *)
Fixpoint handle_speech_queue
    (speech_queue : list (Flags * option (TextToSpeech AudioSegment)))
    : list (TextToSpeech AudioSegment) :=
  match speech_queue with
  | [] => []
  | (fl, speech) :: rest =>
      if exit_chat fl then []
      else handle_speech_queue_step AudioSegment fl speech
           ++ handle_speech_queue rest
  end.

(** What one iteration of [handle_update_audio_history] reads: the
    [exit_chat] flag at the head of the [while], the queue item, the
    clock, and whether the two outside calls return. *)
Record HistoryTurn := {
  turn_exit_chat : bool;
  turn_item : option AudioSegment;
  turn_now : string;
  turn_db_ok : bool;
  turn_export_ok : bool
}.

(** [handle_update_audio_history] (lines 202-244) over the items it
    takes from the queue. *)
Fixpoint handle_update_audio_history (cfg : Configs) (turns : list HistoryTurn)
    (st : HistoryState AudioSegment) : HistoryState AudioSegment :=
  match turns with
  | [] => st
  | t :: rest =>
      if turn_exit_chat t then st
      else handle_update_audio_history cfg rest
             (handle_update_audio_history_step AudioSegment empty add
                duration_seconds cfg (turn_now t) (turn_db_ok t)
                (turn_export_ok t) st (turn_item t))
  end.

(** [merged_audio = AudioSegment.empty()] and nothing done yet. *)
Definition history_start : HistoryState AudioSegment :=
  {| merged_audio := empty; history_audio_paths := [];
     exported_files := []; published_paths := []; tasks_done := 0 |}.

(** [stream_text_and_audio_reply] (app_utils.py, lines 126-132): an item
    taken from [play_speech_queue] is passed on to
    [audio_reply_chunk_queue], a speech item as its audio. *)
Definition forward_speech (current_audio : option (TextToSpeech AudioSegment))
    : option AudioSegment :=
  match current_audio with
  | None => None
  | Some current_audio => Some (speech _ current_audio)
  end.

(** How [play_queued_audios] stands after the items at hand: it has
    left its loop at the [None], it has left it on an error of the
    player, or it waits in [get] for a further item. *)
Inductive play_state := PlayedToEnd | PlayerFailed | WaitingForAudio.

(** [AsyncReplier.play_queued_audios] (app_utils.py, lines 70-103) and
    [_play_queued_audios] (app_page_templates.py) on the content of the
    queue; [render_ok] tells whether the player returns for an audio.
    Returns the audios played, the items left on the queue and the
    state of the loop. *)
Fixpoint play_queued_audios (render_ok : AudioSegment -> bool)
    (audio_reply_chunk_queue : list (option AudioSegment))
    : list AudioSegment * list (option AudioSegment) * play_state :=
  match audio_reply_chunk_queue with
  | [] => ([], [], WaitingForAudio)
  | None :: rest => ([], rest, PlayedToEnd)
  | Some audio :: rest =>
      if render_ok audio then
        let '(played, remaining, state) := play_queued_audios render_ok rest in
        (audio :: played, remaining, state)
      else ([], rest, PlayerFailed)
  end.

End WorkerLoops.

End Loops.

(* ===================================================================== *)
(** * tokens.py: the rows of the usage reports                            *)
(* ===================================================================== *)

Module TokenReports.
Import Tokens.

(** A value of [token_usage_per_model]: the dict with the keys
    ["input"] and ["output"]. *)
Record TokenUsage := {
  usage_input : Z;
  usage_output : Z
}.

(** A [df_row] of the two usage reports, without its "Model" and
    "First Registered Use" texts. *)
Record UsageRow := {
  tokens_input : Z;
  tokens_output : Z;
  tokens_total : Z;
  cost_input : Q;
  cost_output : Q;
  cost_total : Q
}.

(** [get_current_chat_usage_dataframe], lines 163-178: the list
    [df_rows], keyed by model. *)
Fixpoint current_chat_rows (token_usage_per_model : list (option string * TokenUsage))
    : result (list (string * UsageRow)) :=
  match token_usage_per_model with
  | [] => Ok []
  | (None, _) :: rest => current_chat_rows rest
  | (Some model, token_usage) :: rest =>
      match dict_get token_price (Some model) with
      | None => KeyError model
      | Some price =>
          let costs_input := (inject_Z (usage_input token_usage) * input price)%Q in
          let costs_output := (inject_Z (usage_output token_usage) * output price)%Q in
          let df_row :=
            {| tokens_input := usage_input token_usage;
               tokens_output := usage_output token_usage;
               tokens_total :=
                 (0 + usage_input token_usage + usage_output token_usage)%Z;
               cost_input := costs_input;
               cost_output := costs_output;
               cost_total := (0 + costs_input + costs_output)%Q |} in
          match current_chat_rows rest with
          | Ok df_rows => Ok ((model, df_row) :: df_rows)
          | KeyError key => KeyError key
          end
      end
  end.


End TokenReports.

(* ===================================================================== *)
(** * app_page_templates.py: waiting for a prompt of the page             *)
(* ===================================================================== *)

Module AppPages.
Import PyStr AppUtils.

(** One round of the [while True] loop of [continuous_text_prompt]
    (lines 352-362) on [text_prompt_queue], whose entries carry the
    text under ["text"]: the prompt with which the loop is left, if it
    is left, and the queue afterwards.  The queue returned by the
    filter is local to the round. *)
Definition continuous_text_prompt_round (app_page : AppPage)
    (text_prompt_queue : list (Entry string))
    : option string * list (Entry string) :=
  let '(this_page_prompt_queue, the_queue) :=
    filter_page_info_from_queue app_page text_prompt_queue in
  match this_page_prompt_queue with
  | [] => (None, the_queue)                       (* queue.Empty suppressed *)
  | entry :: _ =>
      if truthy (data entry) then (Some (data entry), the_queue)
      else (None, the_queue)
  end.

End AppPages.

(* ===================================================================== *)
(** * voice_chat.py: listen                                               *)
(* ===================================================================== *)

Module Listen.
Import VoiceChat.

(** [int(x)] of a float: the fraction is cut off. *)
Definition int_of (x : Q) : Z := Z.quot (Qnum x) (Zpos (Qden x)).

(** [(later - earlier).seconds] of two [datetime]s given in
    microseconds: the seconds field of the normalised [timedelta],
    between 0 and 86399. *)
Definition timedelta_seconds (later earlier : Z) : Z :=
  (((later - earlier) / 1000000) mod 86400)%Z.

(** The attributes of [self] that [listen] reads. *)
Record ListenConfigs := {
  inactivity_timeout_seconds : Q;
  frame_duration : Q;
  speech_likelihood_threshold : Q
}.

(** What one round of the recording loop reads: the block of the
    microphone, the verdict of the voice activity detector on it, and
    the clock. *)
Record Block (Data : Type) := {
  new_data : Data;
  vad_thinks_this_chunk_is_speech : bool;
  now : Z
}.
Arguments new_data {Data} b.
Arguments vad_thinks_this_chunk_is_speech {Data} b.
Arguments now {Data} b.

(** [deque.append] on a deque with [maxlen]. *)
Definition deque_append (maxlen : nat) (d : list bool) (x : bool) : list bool :=
  if List.length d <? maxlen then d ++ [x] else tl (d ++ [x]).

(** [maxlen] of line 330; [None] stands for the [ZeroDivisionError] of
    the division and the [ValueError] of [deque] on a negative
    [maxlen]. *)
Definition deque_maxlen (inactivity_timeout_seconds frame_duration : Q)
    : option nat :=
  if Qeq_bool frame_duration 0 then None
  else
    let n := int_of (1000 * inactivity_timeout_seconds / frame_duration)%Q in
    if (n <? 0)%Z then None else Some (Z.to_nat n).

(** [sum(d) / len(d)], or [0.0] for an empty deque. *)
Definition speech_likelihood (d : list bool) : Q :=
  if 0 <? List.length d
  then (inject_Z (Z.of_nat (List.length (filter (fun b => b) d)))
        / inject_Z (Z.of_nat (List.length d)))%Q
  else 0%Q.

Section Recording.

Variable Data : Type.
Variable cfg : ListenConfigs.
(** [duration_seconds]; [None] stands for [np.inf]. *)
Variable duration_seconds : option Q.
Variable start_time : Z.

Definition timeout : Q :=
  match duration_seconds with
  | Some d => d
  | None => inactivity_timeout_seconds cfg
  end.

(** The variables of the loop, and the blocks written to the sound
    file. *)
Record Recording := {
  voice_activity_detected : list bool;
  last_inactivity_checked : Z;
  continue_recording : bool;
  speech_detected : bool;
  elapsed_time : Z;
  sound_file : list Data
}.

(** [continue_recording and elapsed_time < duration_seconds] *)
Definition keeps_recording (st : Recording) : bool :=
  continue_recording st
  && match duration_seconds with
     | Some d => Qltb (inject_Z (elapsed_time st)) d
     | None => true
     end.

(** The body of the [while] loop (lines 338-372) for one block. *)
Definition record_block (maxlen : nat) (st : Recording) (b : Block Data)
    : Recording :=
  let voice_activity := deque_append maxlen (voice_activity_detected st)
                          (vad_thinks_this_chunk_is_speech b) in
  let elapsed := timedelta_seconds (now b) start_time in
  match duration_seconds with
  | Some _ =>
      {| voice_activity_detected := voice_activity;
         last_inactivity_checked := last_inactivity_checked st;
         continue_recording := true;
         speech_detected := speech_detected st;
         elapsed_time := elapsed;
         sound_file := sound_file st ++ [new_data b] |}
  | None =>
      if Qle_bool timeout
           (inject_Z (timedelta_seconds (now b) (last_inactivity_checked st)))
      then
        let continue :=
          Qle_bool (speech_likelihood_threshold cfg)
                   (speech_likelihood voice_activity) in
        {| voice_activity_detected := voice_activity;
           last_inactivity_checked := now b;
           continue_recording := continue;
           speech_detected := if continue then true else speech_detected st;
           elapsed_time := elapsed;
           sound_file := sound_file st ++ [new_data b] |}
      else
        {| voice_activity_detected := voice_activity;
           last_inactivity_checked := last_inactivity_checked st;
           continue_recording := continue_recording st;
           speech_detected := speech_detected st;
           elapsed_time := elapsed;
           sound_file := sound_file st ++ [new_data b] |}
  end.

(** The [while] loop on the blocks that the microphone delivers. *)
Fixpoint record (maxlen : nat) (blocks : list (Block Data)) (st : Recording)
    : Recording :=
  match blocks with
  | [] => st
  | b :: rest =>
      if keeps_recording st then record maxlen rest (record_block maxlen st b)
      else st
  end.

(** The variables as lines 329-335 set them. *)
Definition recording_start (first_check : Z) : Recording :=
  {| voice_activity_detected := [];
     last_inactivity_checked := first_check;
     continue_recording := true;
     speech_detected := false;
     elapsed_time := 0;
     sound_file := [] |}.

(** What [listen] gives for the blocks at hand: the recording read back
    from the sound file, [AudioSegment.empty()], the wait in [q.get()]
    for a further block, or the error raised when the deque is made. *)
Inductive heard :=
| FromWav (blocks : list Data)
| EmptyAudio
| WaitingForBlock
| DequeError.

(** [listen] (lines 298-376); [first_check] is the clock reading kept
    in [last_inactivity_checked] before the loop. *)
Definition listen (first_check : Z) (blocks : list (Block Data)) : heard :=
  match deque_maxlen timeout (frame_duration cfg) with
  | None => DequeError
  | Some maxlen =>
      let st := record maxlen blocks (recording_start first_check) in
      if keeps_recording st then WaitingForBlock
      else if speech_detected st
              || match duration_seconds with Some _ => true | None => false end
           then FromWav (sound_file st)
           else EmptyAudio
  end.

End Recording.

End Listen.

(* ===================================================================== *)
(** * Predicates used to state the properties                             *)
(* ===================================================================== *)

Module Props.
Import PyStr VoiceChat.

(** The last character of a string, used to reason about [endswith]
    with a one-character suffix. *)
Fixpoint last_char (s : string) : option ascii :=
  match s with
  | EmptyString => None
  | String c EmptyString => Some c
  | String _ t => last_char t
  end.

(** The buffer, once stripped, ends in a ['.'] that directly follows
    a digit. *)
Definition ends_with_digit_dot (s : string) : bool :=
  endswith (strip s) "."
  && match index_from_end (strip s) 2 with
     | Some d => isdigit d
     | None => false
     end.

(** All but the last [n] characters. *)
Definition drop_last (n : nat) (s : string) : string :=
  String.substring 0 (String.length s - n) s.

(** The buffer, once stripped, ends in a ['.'] and the nearest
    character before it that is not whitespace is a digit. *)
Definition ends_with_digit_space_dot (s : string) : bool :=
  endswith (strip s) "."
  && match index_from_end (rstrip (drop_last 1 (strip s))) 1 with
     | Some d => isdigit d
     | None => false
     end.

(** The test of line 176. *)
Definition stop_requested (fl : Flags) : bool :=
  interrupt_reply fl || exit_chat fl.

(** A chunk whose content is replaced by [f] of it if it is a code
    chunk, and left alone otherwise. *)
Definition chunk_with_code_content (f : string -> string) (c : AnswerChunk)
    : AnswerChunk :=
  if String.eqb (chunk_type c) "code"
  then {| content := f (content c); chunk_type := chunk_type c |}
  else c.

Definition with_code_content (f : string -> string) (x : Flags * AnswerChunk)
    : Flags * AnswerChunk :=
  (fst x, chunk_with_code_content f (snd x)).

Definition event_with_code_content (f : string -> string) (e : event) : event :=
  match e with
  | Yield c => Yield (chunk_with_code_content f c)
  | TtsPut x => TtsPut x
  end.

(** Stream elements that are text chunks, or at which the loop is left. *)
Definition text_or_stop (x : Flags * AnswerChunk) : bool :=
  stop_requested (fst x) || String.eqb (chunk_type (snd x)) "text".

(** The test of [filter_page_info_from_queue]: the entry is of the page. *)
Definition on_page {A : Type} (app_page : AppUtils.AppPage)
    (e : AppUtils.Entry A) : bool :=
  String.eqb (AppUtils.page_id (AppUtils.page e)) (AppUtils.page_id app_page).

(** Number of end-of-reply sentinels among queue items. *)
Definition sentinel_count (items : list (option string)) : nat :=
  List.length
    (filter (fun x => match x with None => true | Some _ => false end) items).

(** Prices per token from prices per thousand tokens, as in [__init__]. *)
Definition per_token (price_per_k_tokens : Tokens.Price) : Tokens.Price :=
  {| Tokens.input := (Tokens.input price_per_k_tokens / 1000)%Q;
     Tokens.output := (Tokens.output price_per_k_tokens / 1000)%Q |}.

(** The row that a call stores, if it stores one. *)
Definition row_of_call (c : Tokens.Call) : option Tokens.TokenRecord :=
  match Tokens.call_model c with
  | None => None
  | Some m =>
      match Tokens.dict_get Tokens.token_price (Some m) with
      | None => None
      | Some price =>
          Some {| Tokens.timestamp := Tokens.called_at c;
                  Tokens.model := m;
                  Tokens.n_input_tokens := Tokens.call_n_input c;
                  Tokens.n_output_tokens := Tokens.call_n_output c;
                  Tokens.cost_input_tokens :=
                    (inject_Z (Tokens.call_n_input c) * Tokens.input price)%Q;
                  Tokens.cost_output_tokens :=
                    (inject_Z (Tokens.call_n_output c) * Tokens.output price)%Q |}
      end
  end.





(** [t] is the earliest timestamp among the rows of model [m]. *)
Definition earliest_of_model (m : string) (db : Tokens.Table) (t : Q) : Prop :=
  (exists r, In r db /\ Tokens.model r = m /\ (Tokens.timestamp r == t)%Q)
  /\ (forall r, In r db -> Tokens.model r = m -> (t <= Tokens.timestamp r)%Q).

(** [t] is the earliest timestamp of the table. *)
Definition earliest_overall (db : Tokens.Table) (t : Q) : Prop :=
  (exists r, In r db /\ (Tokens.timestamp r == t)%Q)
  /\ (forall r, In r db -> (t <= Tokens.timestamp r)%Q).


End Props.

(* ===================================================================== *)
(** * Further predicates                                                  *)
(* ===================================================================== *)

Module MoreProps.
Import PyStr VoiceChat Props.

(** The stream up to the first element at which a stop is read. *)
Fixpoint before_stop (stream : list (Flags * AnswerChunk))
    : list (Flags * AnswerChunk) :=
  match stream with
  | [] => []
  | x :: rest => if stop_requested (fst x) then [] else x :: before_stop rest
  end.

(** The items other than [None], in order. *)
Definition somes {A : Type} (l : list (option A)) : list A :=
  flat_map (fun x => match x with Some a => [a] | None => [] end) l.

(** The number of [None] items. *)
Definition nones {A : Type} (l : list (option A)) : nat :=
  List.length (filter (fun x => match x with None => true | Some _ => false end) l).

(** Neither flag is set. *)
Definition quiet : Flags := {| interrupt_reply := false; exit_chat := false |}.

(** The timestamps of the rows are pairwise different: the primary key
    constraint of [token_costs]. *)
Fixpoint unique_timestamps (db : Tokens.Table) : Prop :=
  match db with
  | [] => True
  | r :: rest =>
      Forall (fun r' => ~ (Tokens.timestamp r' == Tokens.timestamp r)%Q) rest
      /\ unique_timestamps rest
  end.

(** The sentences that the TTS worker converts: stripped, not empty. *)
Definition spoken (ss : list string) : list string :=
  filter truthy (map strip ss).

(** The object [self.tts(text)] once its speech is made. *)
Definition tts_item {AudioSegment : Type} (synth : string -> AudioSegment)
    (text : string) : TextToSpeech AudioSegment :=
  {| tts_text := text; speech := synth text |}.


(** The deque of verdicts after the verdicts [bs] were appended to an
    empty deque. *)
Definition window (maxlen : nat) (bs : list bool) : list bool :=
  fold_left (Listen.deque_append maxlen) bs [].


(** At this block the inactivity check is due: the whole seconds since
    the last check reach the timeout. *)
Definition check_due {Data : Type} (cfg : Listen.ListenConfigs) (last_check : Z)
    (b : Listen.Block Data) : bool :=
  Qle_bool (Listen.inactivity_timeout_seconds cfg)
           (inject_Z (Listen.timedelta_seconds (Listen.now b) last_check)).

(** The merged audio of a sequence of audios, as [+=] builds it. *)
Definition merge {AudioSegment : Type}
    (add : AudioSegment -> AudioSegment -> AudioSegment)
    (start : AudioSegment) (audios : list AudioSegment) : AudioSegment :=
  fold_left add audios start.

(** The turns of the history worker for the queue items [items], with
    no exit and both outside calls returning. *)
Definition clean_turns {AudioSegment : Type} (now : string)
    (items : list (option AudioSegment)) : list (Loops.HistoryTurn AudioSegment) :=
  map (fun item => {| Loops.turn_exit_chat := false; Loops.turn_item := item;
                      Loops.turn_now := now; Loops.turn_db_ok := true;
                      Loops.turn_export_ok := true |}) items.

End MoreProps.

(* ===================================================================== *)
(** * Properties of the string operations                                 *)
(* ===================================================================== *)

Module PyStrFacts.
Import PyStr Props.

Lemma endswith_last_char (s : string) (a : ascii) :
  endswith s (String a EmptyString) = true <-> last_char s = Some a.
Proof.
  induction s as [|c t IH]; simpl.
  - split; discriminate.
  - destruct (Ascii.eqb c a) eqn:Hca.
    + apply Ascii.eqb_eq in Hca; subst c.
      destruct t as [|c' t']; simpl.
      * split; reflexivity.
      * simpl in IH. exact IH.
    + destruct t as [|c' t']; simpl.
      * apply Ascii.eqb_neq in Hca. split; [discriminate|]. congruence.
      * exact IH.
Qed.

Lemma last_char_append (s t : string) :
  t <> EmptyString -> last_char (s ++ t) = last_char t.
Proof.
  intros Ht. induction s as [|c s IH]; simpl; [reflexivity|].
  destruct (s ++ t)%string eqn:E.
  - destruct s; simpl in E; [congruence | discriminate].
  - exact IH.
Qed.

Lemma last_char_lstrip (s : string) (a : ascii) :
  last_char s = Some a -> isspace a = false -> last_char (lstrip s) = Some a.
Proof.
  induction s as [|c t IH]; simpl; intros H Ha; [discriminate|].
  destruct (isspace c) eqn:Hc; [|exact H].
  destruct t as [|c' t'].
  - congruence.
  - apply IH; assumption.
Qed.

Lemma last_char_of_lstrip (s : string) (a : ascii) :
  last_char (lstrip s) = Some a -> last_char s = Some a.
Proof.
  induction s as [|c t IH]; simpl; intros H; [discriminate|].
  destruct (isspace c); [|exact H].
  destruct t as [|c' t']; [discriminate|]. apply IH, H.
Qed.

Lemma rstrip_append (s t : string) :
  rstrip t <> EmptyString -> rstrip (s ++ t) = (s ++ rstrip t)%string.
Proof.
  intros Ht. induction s as [|c s IH]; simpl; [reflexivity|].
  rewrite IH. destruct (s ++ rstrip t)%string eqn:E; [|reflexivity].
  destruct s; simpl in E; [congruence | discriminate].
Qed.

(** A stripped chunk and the stripped buffer it was appended to end in
    the same character. *)
Lemma last_char_strip_append (buf chunk : string) (a : ascii) :
  last_char (strip chunk) = Some a ->
  isspace a = false ->
  last_char (strip (buf ++ chunk)) = Some a.
Proof.
  unfold strip. intros H Ha.
  apply last_char_of_lstrip in H.
  assert (Hne : rstrip chunk <> EmptyString)
    by (intro E; rewrite E in H; discriminate).
  apply last_char_lstrip; [|exact Ha].
  rewrite rstrip_append by exact Hne.
  rewrite last_char_append by exact Hne. exact H.
Qed.

End PyStrFacts.

(* ===================================================================== *)
(** * The sentence chunker                                                *)
(* ===================================================================== *)

Module ChunkerFacts.
Import PyStr Props PyStrFacts VoiceChat.

(** The step of the chunker never splits a buffer that ends in a
    ['.'] directly after a digit. *)
Lemma speak_chunk_keeps_decimal (rot : bool) (buf : string) (c : AnswerChunk) :
  ends_with_digit_dot (buf ++ content c) = true ->
  snd (speak_chunk rot buf c) = [].
Proof.
  unfold ends_with_digit_dot. intros H.
  apply andb_true_iff in H. destruct H as [Hdot Hprev].
  unfold speak_chunk.
  destruct (String.eqb (chunk_type c) "text" && negb rot); [|reflexivity].
  destruct (endswith_any (strip (content c)) ["?"; "!"; "."]) eqn:Hany;
    [|reflexivity].
  destruct (endswith (strip (content c)) ".") eqn:Hc.
  - destruct (index_from_end (strip (buf ++ content c)) 2) as [d|];
      [|discriminate].
    rewrite Hprev. reflexivity.
  - exfalso. unfold endswith_any in Hany. simpl in Hany. rewrite Hc in Hany.
    apply endswith_last_char in Hdot.
    repeat rewrite orb_false_r in Hany.
    apply orb_true_iff in Hany.
    destruct Hany as [Hq | Hq]; apply endswith_last_char in Hq;
      apply (last_char_strip_append buf) in Hq; try reflexivity;
      rewrite Hq in Hdot; discriminate.
Qed.

Lemma reply_loop_splits (rot : bool) (stream : list (Flags * AnswerChunk)) :
  forall (buf s : string),
    In (TtsPut (Some s)) (fst (reply_loop rot stream buf)) ->
    ends_with_digit_dot s = false.
Proof.
  induction stream as [|[fl c] rest IH]; intros buf s Hin; simpl in Hin.
  - contradiction.
  - destruct (interrupt_reply fl || exit_chat fl); [contradiction|].
    destruct (speak_chunk rot buf c) as [buf' puts] eqn:Hstep.
    destruct (reply_loop rot rest buf') as [evs fin] eqn:Hrest.
    simpl in Hin. destruct Hin as [Hin | Hin]; [discriminate|].
    apply in_app_or in Hin. destruct Hin as [Hin | Hin].
    + apply in_map_iff in Hin. destruct Hin as [s' [Heq Hs']].
      injection Heq as ->.
      destruct (ends_with_digit_dot s) eqn:Hdd; [|reflexivity].
      exfalso.
      assert (Hs : s = (buf ++ content c)%string).
      { revert Hstep Hs'. unfold speak_chunk.
        repeat match goal with
               | |- context [if ?b then _ else _] => destruct b
               | |- context [match ?o with Some _ => _ | None => _ end] =>
                   destruct o
               end;
          intros Hstep Hs'; injection Hstep as <- <-; simpl in Hs';
          try contradiction; destruct Hs' as [Hs' | []]; congruence. }
      subst s. pose proof (speak_chunk_keeps_decimal rot buf c Hdd) as Hno.
      rewrite Hstep in Hno. simpl in Hno. subst puts. contradiction.
    + apply (IH buf' s). rewrite Hrest. exact Hin.
Qed.

End ChunkerFacts.

(* ===================================================================== *)
(** * The reply generator and its consumer                                *)
(* ===================================================================== *)

Module ReplyFacts.
Import PyStr Props VoiceChat.

Lemma tts_puts_app (a b : list event) :
  tts_puts (a ++ b) = tts_puts a ++ tts_puts b.
Proof.
  induction a as [|[c|x] a IH]; simpl; [reflexivity | exact IH |].
  rewrite IH. reflexivity.
Qed.

Lemma tts_puts_sentences (ss : list string) :
  tts_puts (map (fun s => TtsPut (Some s)) ss) = map Some ss.
Proof. induction ss as [|s ss IH]; simpl; [reflexivity|]. rewrite IH. reflexivity. Qed.

Lemma speak_chunk_not_text (rot : bool) (buf : string) (c : AnswerChunk) :
  String.eqb (chunk_type c) "text" = false ->
  speak_chunk rot buf c = (buf, []).
Proof. intros H. unfold speak_chunk. rewrite H. reflexivity. Qed.

Lemma code_is_not_text (t : string) :
  String.eqb t "code" = true -> String.eqb t "text" = false.
Proof. intros H. apply String.eqb_eq in H. subst t. reflexivity. Qed.

Lemma speak_chunk_with_code_content (f : string -> string) (rot : bool)
    (buf : string) (c : AnswerChunk) :
  speak_chunk rot buf (chunk_with_code_content f c) = speak_chunk rot buf c.
Proof.
  unfold chunk_with_code_content.
  destruct (String.eqb (chunk_type c) "code") eqn:Hc; [|reflexivity].
  rewrite !speak_chunk_not_text; auto using code_is_not_text.
Qed.

(** The trace of the loop on a stream with changed code contents is the
    trace on the stream itself with the same change in the yields. *)
Lemma reply_loop_with_code_content (f : string -> string) (rot : bool)
    (stream : list (Flags * AnswerChunk)) :
  forall buf : string,
    reply_loop rot (map (with_code_content f) stream) buf
    = (map (event_with_code_content f) (fst (reply_loop rot stream buf)),
       snd (reply_loop rot stream buf)).
Proof.
  induction stream as [|[fl c] rest IH]; intros buf; simpl; [reflexivity|].
  destruct (interrupt_reply fl || exit_chat fl); [reflexivity|].
  rewrite speak_chunk_with_code_content.
  destruct (speak_chunk rot buf c) as [buf' puts].
  rewrite IH. destruct (reply_loop rot rest buf') as [evs fin]. simpl.
  rewrite map_app, map_map. reflexivity.
Qed.

Lemma answer_question_with_code_content (f : string -> string) (rot : bool)
    (stream : list (Flags * AnswerChunk)) :
  answer_question rot (map (with_code_content f) stream)
  = (map (event_with_code_content f) (fst (answer_question rot stream)),
     snd (answer_question rot stream)).
Proof.
  unfold answer_question. rewrite reply_loop_with_code_content.
  destruct (reply_loop rot stream EmptyString) as [evs [buf|]]; simpl;
    [|reflexivity].
  rewrite !map_app.
  destruct (truthy buf && negb rot); reflexivity.
Qed.

Lemma chunk_type_with_code_content (f : string -> string) (c : AnswerChunk) :
  chunk_type (chunk_with_code_content f c) = chunk_type c.
Proof.
  unfold chunk_with_code_content.
  destruct (String.eqb (chunk_type c) "code"); reflexivity.
Qed.

(** What the consumer puts on the TTS queue does not depend on the
    content of the chunks it is handed. *)
Lemma consume_reply_with_code_content (f : string -> string) (msg : string)
    (fin : outcome) (evs : list event) :
  forall info_printed : bool,
    fst (consume_reply msg (map (event_with_code_content f) evs) fin info_printed)
    = fst (consume_reply msg evs fin info_printed).
Proof.
  induction evs as [|[c|x] evs IH]; intros ip; simpl; [reflexivity | |].
  - rewrite chunk_type_with_code_content.
    destruct (String.eqb (chunk_type c) "code"); simpl; [|apply IH].
    specialize (IH true).
    destruct (consume_reply msg (map (event_with_code_content f) evs) fin true).
    destruct (consume_reply msg evs fin true). simpl in *. congruence.
  - specialize (IH ip).
    destruct (consume_reply msg (map (event_with_code_content f) evs) fin ip).
    destruct (consume_reply msg evs fin ip). simpl in *. congruence.
Qed.

(** Chunks that are not text leave no trace on the TTS queue. *)
Lemma reply_loop_text_only (rot : bool) (stream : list (Flags * AnswerChunk)) :
  forall buf : string,
    tts_puts (fst (reply_loop rot (filter text_or_stop stream) buf))
    = tts_puts (fst (reply_loop rot stream buf))
    /\ snd (reply_loop rot (filter text_or_stop stream) buf)
       = snd (reply_loop rot stream buf).
Proof.
  induction stream as [|[fl c] rest IH]; intros buf; [split; reflexivity|].
  cbn [filter].
  assert (Hkeep : text_or_stop (fl, c)
                  = (interrupt_reply fl || exit_chat fl)
                    || String.eqb (chunk_type c) "text") by reflexivity.
  rewrite Hkeep. clear Hkeep.
  destruct (interrupt_reply fl || exit_chat fl) eqn:Hstop; cbn [orb].
  - cbn [reply_loop]. rewrite Hstop. split; reflexivity.
  - destruct (String.eqb (chunk_type c) "text") eqn:Ht; cbn [reply_loop];
      rewrite Hstop.
    + destruct (speak_chunk rot buf c) as [buf' puts].
      destruct (IH buf') as [IH1 IH2].
      destruct (reply_loop rot (filter text_or_stop rest) buf') as [evs1 fin1].
      destruct (reply_loop rot rest buf') as [evs2 fin2].
      simpl in *. rewrite !tts_puts_app. split; congruence.
    + rewrite (speak_chunk_not_text rot buf c Ht).
      destruct (IH buf) as [IH1 IH2].
      destruct (reply_loop rot rest buf) as [evs2 fin2].
      simpl in *. split; assumption.
Qed.

(** The loop puts sentences only, and is left by the raise exactly when
    a stop is requested at some chunk. *)
Lemma reply_loop_puts (rot : bool) (stream : list (Flags * AnswerChunk)) :
  forall buf : string,
    (exists ss : list string,
        tts_puts (fst (reply_loop rot stream buf)) = map Some ss)
    /\ (if existsb (fun x => stop_requested (fst x)) stream
        then snd (reply_loop rot stream buf) = None
        else exists s : string, snd (reply_loop rot stream buf) = Some s).
Proof.
  induction stream as [|[fl c] rest IH]; intros buf; simpl.
  - split; [exists []; reflexivity | exists buf; reflexivity].
  - unfold stop_requested at 1. simpl.
    destruct (interrupt_reply fl || exit_chat fl); simpl.
    + split; [exists []; reflexivity | reflexivity].
    + destruct (speak_chunk rot buf c) as [buf' puts].
      destruct (IH buf') as [[ss Hss] Hfin].
      destruct (reply_loop rot rest buf') as [evs fin]. simpl in *.
      split; [|exact Hfin].
      exists (puts ++ ss).
      rewrite tts_puts_app, tts_puts_sentences, Hss, map_app. reflexivity.
Qed.

Lemma sentinel_count_sentences (ss : list string) :
  sentinel_count (map Some ss) = 0.
Proof. induction ss as [|s ss IH]; simpl; [reflexivity | exact IH]. Qed.

Lemma sentinel_count_app (a b : list (option string)) :
  sentinel_count (a ++ b) = sentinel_count a + sentinel_count b.
Proof. unfold sentinel_count. rewrite filter_app, length_app. reflexivity. Qed.

End ReplyFacts.

(* ===================================================================== *)
(** * The worker threads                                                  *)
(* ===================================================================== *)

Module WorkerFacts.
Import PyStr Props VoiceChat.

Lemma Qltb_lt (a b : Q) : Qltb a b = true <-> (a < b)%Q.
Proof.
  unfold Qltb. rewrite negb_true_iff. split.
  - intros H. apply Qnot_le_lt. intros Hle.
    apply Qle_bool_iff in Hle. congruence.
  - intros H. destruct (Qle_bool b a) eqn:E; [|reflexivity].
    apply Qle_bool_iff in E. exfalso. exact (Qlt_not_le _ _ H E).
Qed.

Lemma Qltb_ge (a b : Q) : Qltb a b = false <-> (b <= a)%Q.
Proof.
  unfold Qltb. rewrite negb_false_iff. apply Qle_bool_iff.
Qed.

Section Workers.

Variable AudioSegment : Type.
Variable empty : AudioSegment.
Variable add : AudioSegment -> AudioSegment -> AudioSegment.
Variable duration_seconds : AudioSegment -> Q.

(** A queue item that is not the sentinel is merged and nothing else
    happens. *)
Lemma history_merges_audio (cfg : Configs) (now : string) (db_ok export_ok : bool)
    (st : HistoryState AudioSegment) (a : AudioSegment) :
  handle_update_audio_history_step AudioSegment empty add duration_seconds
    cfg now db_ok export_ok st (Some a)
  = {| merged_audio := add (merged_audio _ st) a;
       history_audio_paths := history_audio_paths _ st;
       exported_files := exported_files _ st;
       published_paths := published_paths _ st;
       tasks_done := S (tasks_done _ st) |}.
Proof. reflexivity. Qed.

(** While [interrupt_reply] is set the TTS worker converts nothing and
    hands nothing to the playback queue for a pending text. *)
Lemma tts_worker_skips_text_while_interrupted (synth : string -> AudioSegment)
    (fl : Flags) (text : string) :
  interrupt_reply fl = true ->
  handle_tts_queue_step AudioSegment synth fl (Some text) = [].
Proof.
  intros H. unfold handle_tts_queue_step. rewrite H, andb_false_r. reflexivity.
Qed.

(** While [interrupt_reply] is set the playback worker hands no item to
    [speak]. *)
Lemma playback_worker_skips_while_interrupted (fl : Flags)
    (item : option (TextToSpeech AudioSegment)) :
  interrupt_reply fl = true ->
  handle_speech_queue_step AudioSegment fl item = [].
Proof.
  intros H. unfold handle_speech_queue_step. destruct item; [|reflexivity].
  rewrite H. reflexivity.
Qed.

End Workers.

End WorkerFacts.

(* ===================================================================== *)
(** * The page filter of the prompt queues                                *)
(* ===================================================================== *)

Module QueueFacts.
Import AppUtils Props.

Section Filter.

Variable A : Type.
Variable app_page : AppPage.

Lemma filter_loop_spec (q : list (Entry A)) :
  forall others items : list (Entry A),
    filter_loop app_page q others items
    = (items ++ filter (on_page app_page) q,
       others ++ filter (fun e => negb (on_page app_page e)) q).
Proof.
  induction q as [|e q IH]; intros others items; cbn [filter_loop filter].
  - rewrite !app_nil_r. reflexivity.
  - change (String.eqb (page_id (page e)) (page_id app_page))
      with (on_page app_page e).
    destruct (on_page app_page e); cbn [negb];
      rewrite IH, <- app_assoc; reflexivity.
Qed.

Lemma partition_permutation (f : Entry A -> bool) (q : list (Entry A)) :
  Permutation (filter f q ++ filter (fun e => negb (f e)) q) q.
Proof.
  induction q as [|e q IH]; simpl; [constructor|].
  destruct (f e); simpl.
  - constructor. exact IH.
  - apply Permutation_sym, Permutation_cons_app, Permutation_sym, IH.
Qed.

End Filter.

End QueueFacts.

(* ===================================================================== *)
(** * The token ledger                                                    *)
(* ===================================================================== *)

Module TokenFacts.
Import Tokens Props.

Lemma dict_get_token_price (k : option string) :
  dict_get token_price k
  = option_map per_token (dict_get PRICE_PER_THOUSAND_TOKENS k).
Proof.
  unfold token_price.
  induction PRICE_PER_THOUSAND_TOKENS as [|[k' v] d IH]; simpl; [reflexivity|].
  destruct (key_eqb k' k); [reflexivity | exact IH].
Qed.

Lemma insert_data_row (c : Call) (db : Table) :
  insert_data (called_at c) (call_model c) (call_n_input c) (call_n_output c) db
  = match call_model c with
    | None => Ok db
    | Some m =>
        match row_of_call c with
        | Some r => Ok (insert_or_replace r db)
        | None => KeyError m
        end
    end.
Proof.
  unfold insert_data, row_of_call.
  destruct (call_model c) as [m|]; [|reflexivity].
  destruct (dict_get token_price (Some m)); reflexivity.
Qed.




Lemma rows_of_nil_iff (m : string) (db : Table) :
  rows_of m db = [] <-> ~ In m (map model db).
Proof.
  unfold rows_of. induction db as [|r db IH]; simpl.
  - split; [intros _ []| reflexivity].
  - destruct (String.eqb (model r) m) eqn:E.
    + apply String.eqb_eq in E. split; [discriminate|].
      intros H. exfalso. apply H. left. exact E.
    + apply String.eqb_neq in E. rewrite IH. split.
      * intros H [H1 | H1]; [exact (E H1) | exact (H H1)].
      * intros H H1. apply H. right. exact H1.
Qed.

(** Looking a model up in [sums_by_model] gives the aggregates of its
    rows. *)
Lemma sums_get_aggregate (m : string) (db : Table) :
  sums_get m (retrieve_sums_by_model db) = aggregate (rows_of m db).
Proof.
  unfold retrieve_sums_by_model.
  assert (Hgen : forall ms : list string,
             sums_get m
               (flat_map (fun m' => match aggregate (rows_of m' db) with
                                    | Some sums => [(m', sums)]
                                    | None => []
                                    end) ms)
             = if in_dec string_dec m ms then aggregate (rows_of m db) else None).
  { induction ms as [|m' ms IH]; simpl; [reflexivity|].
    destruct (string_dec m' m) as [-> | Hne].
    - destruct (aggregate (rows_of m db)) as [s|] eqn:Ha; simpl.
      + rewrite String.eqb_refl. reflexivity.
      + rewrite IH. destruct (in_dec string_dec m ms); reflexivity.
    - destruct (aggregate (rows_of m' db)) as [s|]; simpl.
      + rewrite (proj2 (String.eqb_neq m' m) Hne), IH.
        destruct (in_dec string_dec m ms); reflexivity.
      + rewrite IH. destruct (in_dec string_dec m ms); reflexivity. }
  rewrite Hgen. unfold models.
  destruct (in_dec string_dec m (nodup string_dec (map model db))) as [Hin | Hn];
    [reflexivity|].
  rewrite nodup_In in Hn. apply rows_of_nil_iff in Hn. rewrite Hn. reflexivity.
Qed.

Lemma row_of_call_fields (c : Call) (r : TokenRecord) :
  row_of_call c = Some r ->
  exists p, dict_get token_price (Some (model r)) = Some p
            /\ call_model c = Some (model r)
            /\ n_input_tokens r = call_n_input c
            /\ n_output_tokens r = call_n_output c
            /\ cost_input_tokens r = (inject_Z (call_n_input c) * input p)%Q
            /\ cost_output_tokens r = (inject_Z (call_n_output c) * output p)%Q.
Proof.
  unfold row_of_call. destruct (call_model c) as [m|]; [|discriminate].
  destruct (dict_get token_price (Some m)) as [p|] eqn:Hp; [|discriminate].
  intros H. injection H as <-. simpl. exists p. repeat split; assumption.
Qed.




Lemma Qminimum_le_first (t : Q) (l : list Q) : (Qminimum t l <= t)%Q.
Proof.
  induction l as [|x l IH]; simpl; [apply Qle_refl|].
  eapply Qle_trans; [apply Q.le_min_r | exact IH].
Qed.

Lemma Qminimum_le_each (t : Q) (l : list Q) (x : Q) :
  In x l -> (Qminimum t l <= x)%Q.
Proof.
  induction l as [|y l IH]; simpl; [intros []|].
  intros [-> | Hin]; [apply Q.le_min_l|].
  eapply Qle_trans; [apply Q.le_min_r | exact (IH Hin)].
Qed.

Lemma Qminimum_attained (t : Q) (l : list Q) :
  exists x, In x (t :: l) /\ (x == Qminimum t l)%Q.
Proof.
  induction l as [|y l [x [Hin Hx]]]; simpl.
  - exists t. split; [left; reflexivity | reflexivity].
  - destruct (Q.min_dec y (Qminimum t l)) as [E | E].
    + exists y. split; [right; left; reflexivity | symmetry; exact E].
    + exists x. split.
      * destruct Hin as [Hin | Hin]; [left; exact Hin | right; right; exact Hin].
      * rewrite E. exact Hx.
Qed.

Lemma in_rows_of (m : string) (db : Table) (r : TokenRecord) :
  In r (rows_of m db) <-> In r db /\ model r = m.
Proof.
  unfold rows_of. rewrite filter_In, String.eqb_eq. reflexivity.
Qed.

(** An entry of [sums_by_model] holds the aggregates of the rows of its
    model, and its timestamp is the earliest of these rows. *)
Lemma sums_by_model_entry (db : Table) (m : string) (s : Sums) :
  In (m, s) (retrieve_sums_by_model db) ->
  aggregate (rows_of m db) = Some s /\ earliest_of_model m db (earliest_timestamp s).
Proof.
  unfold retrieve_sums_by_model. intros Hin.
  apply in_flat_map in Hin. destruct Hin as [m' [_ Hin]].
  destruct (aggregate (rows_of m' db)) as [s'|] eqn:Ha; [|contradiction].
  destruct Hin as [Heq | []]. injection Heq as -> ->.
  split; [exact Ha|].
  unfold aggregate in Ha.
  destruct (rows_of m db) as [|r rest] eqn:Hrows; [discriminate|].
  injection Ha as <-. cbn [earliest_timestamp].
  assert (Hsub : forall r', In r' (r :: rest) <-> In r' db /\ model r' = m)
    by (intros r'; rewrite <- Hrows; apply in_rows_of).
  split.
  - destruct (Qminimum_attained (timestamp r) (map timestamp rest))
      as [x [Hx Hmin]].
    change (timestamp r :: map timestamp rest)
      with (map timestamp (r :: rest)) in Hx.
    apply in_map_iff in Hx. destruct Hx as [r' [<- Hr']].
    apply Hsub in Hr'. destruct Hr' as [Hdb Hm].
    exists r'. repeat split; assumption.
  - intros r' Hdb Hm.
    destruct (proj2 (Hsub r') (conj Hdb Hm)) as [<- | Hin].
    + apply Qminimum_le_first.
    + apply Qminimum_le_each. apply in_map. exact Hin.
Qed.

Lemma retrieve_sums_fold (l : list (string * Sums)) :
  forall init : Sums,
    (earliest_timestamp
       (fold_left (fun sums entry => add_sums sums (snd entry)) l init)
     == earliest_timestamp init
        + Qsum (map (fun e => earliest_timestamp (snd e)) l))%Q.
Proof.
  induction l as [|e l IH]; intros init; simpl.
  - ring.
  - rewrite IH. simpl. ring.
Qed.

Lemma sums_by_model_length (db : Table) :
  List.length (retrieve_sums_by_model db) = List.length (models db).
Proof.
  unfold retrieve_sums_by_model.
  assert (Hall : forall m, In m (models db) -> rows_of m db <> []).
  { intros m Hin Hnil. unfold models in Hin. rewrite nodup_In in Hin.
    apply rows_of_nil_iff in Hnil. exact (Hnil Hin). }
  induction (models db) as [|m ms IH]; simpl; [reflexivity|].
  rewrite length_app, IH by (intros m' Hm'; apply Hall; right; exact Hm').
  specialize (Hall m (or_introl eq_refl)). unfold aggregate.
  destruct (rows_of m db); [congruence | reflexivity].
Qed.

Lemma Qsum_nonneg (l : list Q) :
  (forall x, In x l -> (0 < x)%Q) -> (0 <= Qsum l)%Q.
Proof.
  induction l as [|x l IH]; simpl; intros H; [apply Qle_refl|].
  assert (0 < x)%Q by (apply H; left; reflexivity).
  assert (0 <= Qsum l)%Q by (apply IH; intros y Hy; apply H; right; exact Hy).
  lra.
Qed.

End TokenFacts.

Import PyStr Props VoiceChat.

(** Claim C1, as the code has it.  The chunk stream
    ["The ratio is ", "3", ".", "14", " exactly."] and the one-chunk
    stream ["Pi is 3.14."] each put exactly one sentence, the whole
    text, on the TTS queue, followed by the end-of-reply sentinel.  In
    general a buffer whose stripped text ends in a ['.'] directly after
    a digit is not split by the chunk that completes it, and no sentence
    split off inside the loop ends in a ['.'] directly after a digit. *)
Theorem chunker_keeps_decimal_numbers :
  tts_puts (fst (answer_question false
     (map text_chunk ["The ratio is "; "3"; "."; "14"; " exactly."])))
    = [Some "The ratio is 3.14 exactly."; None]
  /\ tts_puts (fst (answer_question false (map text_chunk ["Pi is 3.14."])))
    = [Some "Pi is 3.14."; None]
  /\ (forall (rot : bool) (buf : string) (c : AnswerChunk),
        ends_with_digit_dot (buf ++ content c) = true ->
        snd (speak_chunk rot buf c) = [])
  /\ (forall (rot : bool) (stream : list (Flags * AnswerChunk)) (s : string),
        In s (split_sentences rot stream) ->
        ends_with_digit_dot s = false).
Proof.
  split; [reflexivity|]. split; [reflexivity|]. split.
  - exact ChunkerFacts.speak_chunk_keeps_decimal.
  - intros rot stream s Hin. unfold split_sentences in Hin.
    apply in_flat_map in Hin. destruct Hin as [e [He Hs]].
    destruct e as [c | [s'|]]; simpl in Hs; try contradiction.
    destruct Hs as [-> | []].
    exact (ChunkerFacts.reply_loop_splits rot stream EmptyString s He).
Qed.

Lemma chunker_keeps_decimal_numbers_witness :
  ends_with_digit_dot ("The ratio is 3" ++ ".") = true
  /\ snd (speak_chunk false "The ratio is 3" {| content := "."; chunk_type := "text" |}) = []
  /\ In "Hi." (split_sentences false (map text_chunk ["Hi."; " 3."]))
  /\ ends_with_digit_dot "Hi." = false.
Proof.
  destruct chunker_keeps_decimal_numbers as [_ [_ [Hstep Hall]]].
  split; [reflexivity|]. split.
  - apply Hstep. reflexivity.
  - split; [left; reflexivity|].
    apply (Hall false (map text_chunk ["Hi."; " 3."])). left; reflexivity.
Defined.

(** Claim C1 as stated fails: the chunk ["3 ."] is split off as a
    sentence although the nearest character before its ['.'] that is not
    whitespace is the digit ['3']; the code looks at the character
    directly before the ['.'], here a space. *)
Lemma chunker_splits_after_digit_and_space :
  split_sentences false (map text_chunk ["3 ."; " Next"]) = ["3 ."]
  /\ ends_with_digit_space_dot "3 ." = true
  /\ ~ (forall (rot : bool) (stream : list (Flags * AnswerChunk)) (s : string),
          In s (split_sentences rot stream) ->
          ends_with_digit_space_dot s = false).
Proof.
  split; [reflexivity|]. split; [reflexivity|].
  intros H.
  specialize (H false (map text_chunk ["3 ."; " Next"]) "3 ." (or_introl eq_refl)).
  discriminate H.
Qed.

(** Claim C2.  A chunk whose [chunk_type] is ["code"] leaves the
    sentence buffer as it is and puts nothing on the TTS queue; the
    items put on the TTS queue during a turn of [start] (sentences,
    notice and sentinel) are the same whatever the contents of the code
    chunks are; and the items put by [answer_question] are those it puts
    for the text chunks of the stream alone. *)
Theorem code_chunks_are_not_spoken :
  (forall (rot : bool) (buf : string) (c : AnswerChunk),
      chunk_type c = "code" -> speak_chunk rot buf c = (buf, []))
  /\ (forall (f : string -> string) (msg : string) (rot : bool)
             (stream : list (Flags * AnswerChunk)),
        fst (start_turn msg rot (map (with_code_content f) stream))
        = fst (start_turn msg rot stream))
  /\ (forall (rot : bool) (stream : list (Flags * AnswerChunk)),
        tts_puts (fst (answer_question rot stream))
        = tts_puts (fst (answer_question rot (filter text_or_stop stream)))).
Proof.
  split; [|split].
  - intros rot buf c Hc. apply ReplyFacts.speak_chunk_not_text.
    rewrite Hc. reflexivity.
  - intros f msg rot stream. unfold start_turn.
    rewrite ReplyFacts.answer_question_with_code_content.
    destruct (answer_question rot stream) as [evs fin]. simpl.
    apply ReplyFacts.consume_reply_with_code_content.
  - intros rot stream. unfold answer_question.
    destruct (ReplyFacts.reply_loop_text_only rot stream EmptyString) as [H1 H2].
    destruct (reply_loop rot (filter text_or_stop stream) EmptyString) as [evs1 fin1].
    destruct (reply_loop rot stream EmptyString) as [evs2 fin2].
    simpl in *. subst fin1.
    destruct fin2 as [buf|]; simpl; [|congruence].
    rewrite !ReplyFacts.tts_puts_app. congruence.
Qed.

Lemma code_chunks_are_not_spoken_witness :
  speak_chunk false "See " {| content := "print(1)."; chunk_type := "code" |}
  = ("See ", []).
Proof.
  apply (proj1 code_chunks_are_not_spoken). reflexivity.
Defined.

(** Claim C10.  If a stop ([interrupt_reply] or [exit_chat]) is read at
    some chunk of the stream, [answer_question] ends by the raise and
    has put no sentinel on the TTS queue; otherwise it returns, and the
    items it has put are sentences followed by one sentinel, the only
    one. *)
Theorem sentinel_iff_stream_consumed (rot : bool)
    (stream : list (Flags * AnswerChunk)) :
  let puts := tts_puts (fst (answer_question rot stream)) in
  if existsb (fun x => stop_requested (fst x)) stream
  then snd (answer_question rot stream) = RaisedStopIteration
       /\ sentinel_count puts = 0
  else snd (answer_question rot stream) = Returned
       /\ sentinel_count puts = 1
       /\ exists ss : list string, puts = map Some ss ++ [None].
Proof.
  unfold answer_question.
  destruct (ReplyFacts.reply_loop_puts rot stream EmptyString) as [[ss Hss] Hfin].
  destruct (reply_loop rot stream EmptyString) as [evs fin]. simpl in *.
  destruct (existsb (fun x => stop_requested (fst x)) stream).
  - subst fin. simpl. rewrite Hss.
    split; [reflexivity | apply ReplyFacts.sentinel_count_sentences].
  - destruct Hfin as [buf ->]. simpl.
    rewrite !ReplyFacts.tts_puts_app, Hss.
    split; [reflexivity|].
    destruct (truthy buf && negb rot); simpl.
    + split.
      * rewrite ReplyFacts.sentinel_count_app,
          ReplyFacts.sentinel_count_sentences. reflexivity.
      * exists (ss ++ [buf]). rewrite map_app, <- app_assoc. reflexivity.
    + split.
      * rewrite ReplyFacts.sentinel_count_app,
          ReplyFacts.sentinel_count_sentences. reflexivity.
      * exists ss. reflexivity.
Qed.



(** Claim C7, as the code has it.  A captured utterance shorter than
    the fixed [minimum_prompt_duration_seconds] (0.05 s) is discarded:
    it is not sent to speech-to-text and nothing is put on the questions
    queue. *)
Theorem short_prompts_are_discarded (AudioSegment : Type)
    (duration_seconds : AudioSegment -> Q) (cfg : Configs)
    (stt : AudioSegment -> string) (get_lower_alphanumeric : string -> string)
    (audio : AudioSegment) :
  (duration_seconds audio < 0.05)%Q ->
  handle_question_listening_step AudioSegment duration_seconds cfg stt
    get_lower_alphanumeric (Some audio) = [].
Proof.
  intros H. unfold handle_question_listening_step.
  apply WorkerFacts.Qltb_lt in H. unfold minimum_prompt_duration_seconds.
  rewrite H. reflexivity.
Qed.

Lemma short_prompts_are_discarded_witness :
  handle_question_listening_step Q (fun d => d)
    {| min_speech_duration_seconds := 0.1%Q; exit_expressions := ["goodbye"];
       audio_cache_dir := "cache" |}
    (fun _ => "hello") (fun s => s) (Some 0.02%Q) = [].
Proof.
  apply short_prompts_are_discarded. reflexivity.
Defined.

(** Claim C7 as stated fails: with [min_speech_duration_seconds] set to
    0.1 s, an utterance of 0.07 s is shorter than it and yet is sent to
    speech-to-text and its transcript is put on the questions queue; the
    loop compares with its own constant and does not read the
    setting. *)
Lemma prompt_shorter_than_setting_is_kept :
  let cfg := {| min_speech_duration_seconds := 0.1%Q;
                exit_expressions := ["goodbye"];
                audio_cache_dir := "cache" |} in
  (0.07 < min_speech_duration_seconds cfg)%Q
  /\ handle_question_listening_step Q (fun d => d) cfg
       (fun _ => "hello") (fun s => s) (Some 0.07%Q)
     = [SttCall Q 0.07%Q; QuestionPut Q (Some "hello")]
  /\ ~ (forall (AudioSegment : Type) (duration_seconds : AudioSegment -> Q)
               (cfg : Configs) (stt : AudioSegment -> string)
               (get_lower_alphanumeric : string -> string)
               (audio : AudioSegment),
          (duration_seconds audio < min_speech_duration_seconds cfg)%Q ->
          handle_question_listening_step AudioSegment duration_seconds cfg stt
            get_lower_alphanumeric (Some audio) = []).
Proof.
  cbn zeta. split; [reflexivity|]. split; [reflexivity|].
  intros H.
  specialize (H Q (fun d => d)
                {| min_speech_duration_seconds := 0.1%Q;
                   exit_expressions := ["goodbye"];
                   audio_cache_dir := "cache" |}
                (fun _ => "hello") (fun s => s) 0.07%Q eq_refl).
  discriminate H.
Qed.

Import AppUtils.

(** Claim C8.  [filter_page_info_from_queue] returns the entries of the
    page in their queue order and leaves the other entries in the queue
    in their queue order; together the two are a rearrangement of the
    original queue, so no entry is lost or duplicated; every returned
    entry is of the page and no entry left is. *)
Theorem filter_page_info_from_queue_spec (A : Type) (app_page : AppPage)
    (the_queue : list (Entry A)) :
  let items := fst (filter_page_info_from_queue app_page the_queue) in
  let remaining := snd (filter_page_info_from_queue app_page the_queue) in
  items = filter (on_page app_page) the_queue
  /\ remaining = filter (fun e => negb (on_page app_page e)) the_queue
  /\ Permutation (items ++ remaining) the_queue
  /\ Forall (fun e => page_id (page e) = page_id app_page) items
  /\ Forall (fun e => page_id (page e) <> page_id app_page) remaining.
Proof.
  cbn zeta. unfold filter_page_info_from_queue.
  rewrite QueueFacts.filter_loop_spec. cbn [fst snd app].
  split; [reflexivity|]. split; [reflexivity|]. split.
  - apply QueueFacts.partition_permutation.
  - split; apply Forall_forall; intros e He; apply filter_In in He;
      destruct He as [_ He]; unfold on_page in He.
    + apply String.eqb_eq. exact He.
    + apply String.eqb_neq. apply negb_true_iff. exact He.
Qed.

Import Tokens.



(** Claim C6, as the code has it.  [insert_data] for a model that is
    not a key of the price table raises [KeyError] and stores no row:
    the table, and so every later query, is as before.  With the model
    [None] the call returns at once and stores no row either. *)
Theorem insert_unknown_model_raises (now : Q) (m : string)
    (n_input n_output : Z) (db : Table) :
  dict_get PRICE_PER_THOUSAND_TOKENS (Some m) = None ->
  insert_data now (Some m) n_input n_output db = KeyError m
  /\ insert_all [ {| called_at := now; call_model := Some m;
                     call_n_input := n_input; call_n_output := n_output |} ] db
     = db
  /\ insert_data now None n_input n_output db = Ok db.
Proof.
  intros H.
  assert (Hp : dict_get token_price (Some m) = None)
    by (rewrite TokenFacts.dict_get_token_price, H; reflexivity).
  unfold insert_all, insert_data. cbn [called_at call_model call_n_input call_n_output].
  rewrite Hp. repeat split.
Qed.

Lemma insert_unknown_model_raises_witness :
  insert_data 1700000000%Q (Some "gpt-4o") 10 20 [] = KeyError "gpt-4o".
Proof.
  apply (insert_unknown_model_raises 1700000000%Q "gpt-4o" 10 20 []).
  reflexivity.
Defined.

(** Claim C6 as stated fails: "gpt-4o" is not a key of the price table,
    the call raises [KeyError], the table stays empty and the queries
    show no row for it. *)
Lemma unknown_model_is_not_recorded :
  let call := {| called_at := 1700000000%Q; call_model := Some "gpt-4o";
                 call_n_input := 10; call_n_output := 20 |} in
  dict_get PRICE_PER_THOUSAND_TOKENS (Some "gpt-4o") = None
  /\ insert_data 1700000000%Q (Some "gpt-4o") 10 20 [] = KeyError "gpt-4o"
  /\ retrieve_sums_by_model (insert_all [call] []) = []
  /\ ~ (forall (now : Q) (m : string) (n_input n_output : Z) (db : Table),
          dict_get PRICE_PER_THOUSAND_TOKENS (Some m) = None ->
          exists r : TokenRecord,
            insert_data now (Some m) n_input n_output db
            = Ok (insert_or_replace r db)
            /\ model r = m
            /\ (cost_input_tokens r == 0)%Q /\ (cost_output_tokens r == 0)%Q).
Proof.
  cbn zeta. split; [reflexivity|]. split; [reflexivity|]. split; [reflexivity|].
  intros H.
  destruct (H 1700000000%Q "gpt-4o" 10%Z 20%Z [] eq_refl) as [r [Hr _]].
  discriminate Hr.
Qed.

(** Claim C9.  The [earliest_timestamp] that [retrieve_sums] returns is
    the sum of the [earliest_timestamp] entries of [sums_by_model], each
    of which is the earliest timestamp of its model's rows.  When rows
    of more than one model are present (timestamps being positive) it
    is therefore larger than the earliest timestamp of the table. *)
Theorem retrieve_sums_adds_earliest_timestamps (db : Table) :
  (earliest_timestamp (retrieve_sums db)
   == Qsum (map (fun e => earliest_timestamp (snd e)) (retrieve_sums_by_model db)))%Q
  /\ (forall (m : string) (s : Sums),
        In (m, s) (retrieve_sums_by_model db) ->
        earliest_of_model m db (earliest_timestamp s))
  /\ ((forall r, In r db -> (0 < timestamp r)%Q) ->
      2 <= List.length (models db) ->
      forall t : Q,
        earliest_overall db t ->
        (t < earliest_timestamp (retrieve_sums db))%Q).
Proof.
  assert (Hsum : (earliest_timestamp (retrieve_sums db)
                  == Qsum (map (fun e => earliest_timestamp (snd e))
                               (retrieve_sums_by_model db)))%Q).
  { unfold retrieve_sums. rewrite TokenFacts.retrieve_sums_fold. simpl. ring. }
  split; [exact Hsum|]. split.
  - intros m s Hin. apply (TokenFacts.sums_by_model_entry db m s Hin).
  - intros Hpos Hlen t [_ Hlow]. rewrite Hsum.
    rewrite <- TokenFacts.sums_by_model_length in Hlen.
    assert (Hentry : forall e, In e (retrieve_sums_by_model db) ->
               (0 < earliest_timestamp (snd e))%Q
               /\ (t <= earliest_timestamp (snd e))%Q).
    { intros [m s] Hin.
      destruct (TokenFacts.sums_by_model_entry db m s Hin)
        as [_ [[r [Hr [_ Heq]]] _]].
      simpl. rewrite <- Heq. split; [apply Hpos | apply Hlow]; exact Hr. }
    destruct (retrieve_sums_by_model db) as [|e1 [|e2 rest]];
      [simpl in Hlen; lia | simpl in Hlen; lia |].
    destruct (Hentry e1 (or_introl eq_refl)) as [_ H1].
    destruct (Hentry e2 (or_intror (or_introl eq_refl))) as [H2 _].
    assert (Hrest : (0 <= Qsum (map (fun e => earliest_timestamp (snd e)) rest))%Q).
    { apply TokenFacts.Qsum_nonneg. intros x Hx.
      apply in_map_iff in Hx. destruct Hx as [e [<- He]].
      apply Hentry. right. right. exact He. }
    simpl. simpl in Hrest. lra.
Qed.

Lemma retrieve_sums_adds_earliest_timestamps_witness :
  let db := insert_all
              [ {| called_at := 1700000000; call_model := Some "gpt-4";
                   call_n_input := 1000; call_n_output := 500 |};
                {| called_at := 1700000100; call_model := Some "gpt-3.5-turbo";
                   call_n_input := 7; call_n_output := 9 |};
                {| called_at := 1700000200; call_model := Some "gpt-4";
                   call_n_input := 30; call_n_output := 20 |} ]%Q%Z [] in
  (earliest_timestamp (retrieve_sums db) == 3400000100)%Q
  /\ earliest_overall db 1700000000%Q
  /\ (1700000000 < earliest_timestamp (retrieve_sums db))%Q.
Proof.
  cbn zeta.
  match goal with |- context [retrieve_sums ?d] => set (db := d) end.
  assert (Hdb : forall r, In r db ->
                  (1700000000 <= timestamp r)%Q /\ (0 < timestamp r)%Q).
  { intros r Hin. vm_compute in Hin.
    destruct Hin as [<- | [<- | [<- | []]]]; split; simpl;
      solve [discriminate | reflexivity]. }
  assert (Hmin : earliest_overall db 1700000000%Q).
  { split.
    - eexists. split; [left; reflexivity | reflexivity].
    - intros r Hin. apply Hdb, Hin. }
  split; [reflexivity|]. split; [exact Hmin|].
  apply (proj2 (proj2 (retrieve_sums_adds_earliest_timestamps db))).
  - intros r Hin. apply Hdb, Hin.
  - vm_compute. repeat constructor.
  - exact Hmin.
Defined.

(* ===================================================================== *)
(** * Further properties: stripping                                       *)
(* ===================================================================== *)

Module StripFacts.
Import PyStr.

Lemma lstrip_idempotent (s : string) : lstrip (lstrip s) = lstrip s.
Proof.
  induction s as [|c t IH]; simpl; [reflexivity|].
  destruct (isspace c) eqn:E; [exact IH|]. simpl. rewrite E. reflexivity.
Qed.

Lemma rstrip_tail (c : ascii) (t : string) :
  rstrip (String c t) = String c t -> rstrip t = t.
Proof.
  simpl. destruct (rstrip t) as [|c' t'] eqn:E.
  - destruct (isspace c); [discriminate|]. intros H. injection H as <-. reflexivity.
  - intros H. injection H as <-. reflexivity.
Qed.

Lemma rstrip_lstrip_fixed (s : string) :
  rstrip s = s -> rstrip (lstrip s) = lstrip s.
Proof.
  induction s as [|c t IH]; intros H; [reflexivity|].
  cbn [lstrip]. destruct (isspace c); [|exact H].
  apply IH. exact (rstrip_tail c t H).
Qed.

Lemma rstrip_idempotent (s : string) : rstrip (rstrip s) = rstrip s.
Proof.
  induction s as [|c t IH]; [reflexivity|].
  cbn [rstrip]. destruct (rstrip t) as [|c' t'] eqn:E.
  - destruct (isspace c) eqn:Ec; [reflexivity|]. simpl. rewrite Ec. reflexivity.
  - cbn [rstrip]. cbn [rstrip] in IH. rewrite IH. reflexivity.
Qed.

(** Stripping a stripped string changes nothing. *)
Lemma strip_idempotent (s : string) : strip (strip s) = strip s.
Proof.
  unfold strip.
  rewrite (rstrip_lstrip_fixed (rstrip s) (rstrip_idempotent s)).
  apply lstrip_idempotent.
Qed.

Lemma truthy_nonempty (s : string) : truthy s = true <-> s <> EmptyString.
Proof. destruct s; simpl; split; congruence. Qed.

End StripFacts.

(* ===================================================================== *)
(** * Further properties: the reply and its consumers                     *)
(* ===================================================================== *)

Module PipelineFacts.
Import PyStr VoiceChat Props MoreProps Loops.

Lemma yields_of_sentences (ss : list string) :
  flat_map (fun e => match e with
                     | Yield chunk => [Some (content chunk)]
                     | TtsPut _ => []
                     end)
           (map (fun s => TtsPut (Some s)) ss) = [].
Proof. induction ss as [|s ss IH]; simpl; [reflexivity | exact IH]. Qed.

(** The chunks yielded by the loop are those before the first stop. *)
Lemma reply_loop_yields (rot : bool) (stream : list (Flags * AnswerChunk)) :
  forall buf : string,
    flat_map (fun e => match e with
                       | Yield chunk => [Some (content chunk)]
                       | TtsPut _ => []
                       end)
             (fst (reply_loop rot stream buf))
    = map (fun x => Some (content (snd x))) (before_stop stream).
Proof.
  induction stream as [|[fl c] rest IH]; intros buf; [reflexivity|].
  cbn [reply_loop before_stop fst]. unfold stop_requested.
  destruct (interrupt_reply fl || exit_chat fl); [reflexivity|].
  destruct (speak_chunk rot buf c) as [buf' puts].
  specialize (IH buf').
  destruct (reply_loop rot rest buf') as [evs fin]. cbn [fst] in *.
  cbn [flat_map map snd app]. rewrite flat_map_app, yields_of_sentences, IH.
  reflexivity.
Qed.

(** A stream without stop is answered by sentences and one sentinel. *)
Lemma answer_question_complete (rot : bool) (stream : list (Flags * AnswerChunk)) :
  existsb (fun x => stop_requested (fst x)) stream = false ->
  snd (answer_question rot stream) = Returned
  /\ exists ss : list string,
       tts_puts (fst (answer_question rot stream)) = map Some ss ++ [None].
Proof.
  intros Hquiet. unfold answer_question.
  destruct (ReplyFacts.reply_loop_puts rot stream EmptyString) as [[ss Hss] Hfin].
  rewrite Hquiet in Hfin.
  destruct (reply_loop rot stream EmptyString) as [evs fin]. cbn [fst snd] in *.
  destruct Hfin as [buf ->]. cbn [fst snd]. split; [reflexivity|].
  rewrite !ReplyFacts.tts_puts_app, Hss.
  destruct (truthy buf && negb rot); cbn [tts_puts].
  - exists (ss ++ [buf]). rewrite map_app, <- app_assoc. reflexivity.
  - exists ss. reflexivity.
Qed.


Section Workers.

Variable AudioSegment : Type.
Variable empty : AudioSegment.
Variable add : AudioSegment -> AudioSegment -> AudioSegment.
Variable duration_seconds : AudioSegment -> Q.
Variable synth : string -> AudioSegment.

Lemma play_puts_app (a b : list (tts_effect AudioSegment)) :
  play_speech_puts AudioSegment (a ++ b) = play_speech_puts AudioSegment a ++ play_speech_puts AudioSegment b.
Proof. apply flat_map_app. Qed.

Lemma audio_puts_app (a b : list (tts_effect AudioSegment)) :
  answer_audio_puts AudioSegment (a ++ b) = answer_audio_puts AudioSegment a ++ answer_audio_puts AudioSegment b.
Proof. apply flat_map_app. Qed.

(** With no flag set, the worker converts the sentences that are not
    blank, in order, and passes a sentinel on. *)
Lemma tts_worker_quiet (ss : list string) (tail : list (option string)) :
  play_speech_puts AudioSegment (handle_tts_queue AudioSegment synth (map (pair quiet) (map Some ss ++ tail)))
  = map Some (map (tts_item synth) (spoken ss))
    ++ play_speech_puts AudioSegment (handle_tts_queue AudioSegment synth (map (pair quiet) tail))
  /\ answer_audio_puts AudioSegment (handle_tts_queue AudioSegment synth (map (pair quiet) (map Some ss ++ tail)))
     = map Some (map synth (spoken ss))
       ++ answer_audio_puts AudioSegment (handle_tts_queue AudioSegment synth (map (pair quiet) tail)).
Proof.
  induction ss as [|s ss [IH1 IH2]]; [split; reflexivity|].
  cbn [map app handle_tts_queue]. cbn [quiet exit_chat].
  rewrite play_puts_app, audio_puts_app, IH1, IH2.
  unfold handle_tts_queue_step, spoken. cbn [map filter interrupt_reply negb].
  rewrite andb_true_r.
  destruct (truthy (strip s)); split; reflexivity.
Qed.

Lemma tts_worker_sentinel :
  play_speech_puts AudioSegment (handle_tts_queue AudioSegment synth (map (pair quiet) [None])) = [None]
  /\ answer_audio_puts AudioSegment (handle_tts_queue AudioSegment synth (map (pair quiet) [None])) = [None].
Proof. split; reflexivity. Qed.

(** Audios are merged into the buffer, one task done each. *)
Lemma history_merges (cfg : Configs) (now : string) (audios : list AudioSegment) :
  forall st : HistoryState AudioSegment,
    handle_update_audio_history AudioSegment empty add duration_seconds cfg
      (clean_turns now (map Some audios)) st
    = {| merged_audio := merge add (merged_audio _ st) audios;
         history_audio_paths := history_audio_paths _ st;
         exported_files := exported_files _ st;
         published_paths := published_paths _ st;
         tasks_done := List.length audios + tasks_done _ st |}.
Proof.
  induction audios as [|a audios IH]; intros st.
  - destruct st; reflexivity.
  - cbn [map clean_turns handle_update_audio_history turn_exit_chat].
    unfold clean_turns in IH. rewrite IH.
    cbn [handle_update_audio_history_step turn_item merged_audio
         history_audio_paths exported_files published_paths tasks_done
         merge fold_left List.length].
    f_equal. lia.
Qed.

Lemma history_app (cfg : Configs) (now : string)
    (a b : list (option AudioSegment)) (st : HistoryState AudioSegment) :
  handle_update_audio_history AudioSegment empty add duration_seconds cfg
    (clean_turns now (a ++ b)) st
  = handle_update_audio_history AudioSegment empty add duration_seconds cfg
      (clean_turns now b)
      (handle_update_audio_history AudioSegment empty add duration_seconds cfg
         (clean_turns now a) st).
Proof.
  revert st. induction a as [|x a IH]; intros st; [reflexivity|].
  cbn [app clean_turns map handle_update_audio_history turn_exit_chat].
  apply IH.
Qed.

End Workers.

End PipelineFacts.

Import MoreProps Loops.

(** X1.  The text queue of the web app receives the content of every
    chunk of the reply, text and code alike, up to the first chunk at
    which a stop is read, in stream order; the closing [None] follows
    exactly when no stop was read.  The setting [reply_only_as_text]
    plays no part. *)
Theorem text_queue_gets_every_chunk (rot : bool)
    (stream : list (Flags * AnswerChunk)) :
  queue_text_chunks (fst (answer_question rot stream))
                    (snd (answer_question rot stream))
  = map (fun x => Some (content (snd x))) (before_stop stream)
    ++ (if existsb (fun x => stop_requested (fst x)) stream then [] else [None]).
Proof.
  unfold queue_text_chunks, answer_question.
  pose proof (PipelineFacts.reply_loop_yields rot stream EmptyString) as Hy.
  destruct (ReplyFacts.reply_loop_puts rot stream EmptyString) as [_ Hfin].
  destruct (reply_loop rot stream EmptyString) as [evs fin]. cbn [fst snd] in *.
  destruct (existsb (fun x => stop_requested (fst x)) stream).
  - subst fin. cbn [fst snd]. rewrite Hy. reflexivity.
  - destruct Hfin as [buf ->]. cbn [fst snd].
    rewrite !flat_map_app, Hy.
    destruct (truthy buf && negb rot); cbn [flat_map app];
      rewrite ?app_nil_r; reflexivity.
Qed.

(** X2.  Whatever the flags and the queue, the TTS worker puts on the
    audio history queue exactly the audios of the items it puts on the
    playback queue, sentinels included, in the same order. *)
Theorem tts_worker_feeds_both_queues_alike (AudioSegment : Type)
    (synth : string -> AudioSegment)
    (text_queue : list (Flags * option string)) :
  answer_audio_puts AudioSegment (handle_tts_queue AudioSegment synth text_queue)
  = map (forward_speech AudioSegment)
        (play_speech_puts AudioSegment
           (handle_tts_queue AudioSegment synth text_queue)).
Proof.
  induction text_queue as [|[fl text] rest IH]; [reflexivity|].
  cbn [handle_tts_queue]. destruct (exit_chat fl); [reflexivity|].
  rewrite PipelineFacts.play_puts_app, PipelineFacts.audio_puts_app, map_app, IH.
  f_equal. unfold handle_tts_queue_step.
  destruct text as [text|]; [|reflexivity].
  destruct (truthy (strip text) && negb (interrupt_reply fl)); reflexivity.
Qed.

(** X3.  While the chat is not left, the TTS worker passes every
    end-of-reply sentinel on to the playback queue and to the audio
    history queue, also while [interrupt_reply] is set. *)
Theorem tts_worker_forwards_every_sentinel (AudioSegment : Type)
    (synth : string -> AudioSegment)
    (text_queue : list (Flags * option string)) :
  Forall (fun x => exit_chat (fst x) = false) text_queue ->
  nones (play_speech_puts AudioSegment
           (handle_tts_queue AudioSegment synth text_queue))
  = nones (map snd text_queue)
  /\ nones (answer_audio_puts AudioSegment
              (handle_tts_queue AudioSegment synth text_queue))
     = nones (map snd text_queue).
Proof.
  induction 1 as [|[fl text] rest Hx _ [IH1 IH2]]; [split; reflexivity|].
  cbn [fst] in Hx. cbn [handle_tts_queue]. rewrite Hx.
  rewrite PipelineFacts.play_puts_app, PipelineFacts.audio_puts_app.
  unfold nones in *. rewrite !filter_app, !length_app, IH1, IH2.
  unfold handle_tts_queue_step.
  destruct text as [text|]; [|split; reflexivity].
  destruct (truthy (strip text) && negb (interrupt_reply fl)); split; reflexivity.
Qed.

Lemma tts_worker_forwards_every_sentinel_witness :
  nones (play_speech_puts nat
           (handle_tts_queue nat String.length
              [ ({| interrupt_reply := true; exit_chat := false |}, Some "Hi.");
                ({| interrupt_reply := true; exit_chat := false |}, None) ]))
  = 1.
Proof.
  refine (proj1 (tts_worker_forwards_every_sentinel nat String.length _ _)).
  repeat constructor.
Defined.

(** X4.  Every item that the TTS worker puts on the playback queue
    carries a text that is not empty and has no white space at either
    end, the audio made from that text, and stems from a queue item
    that strips to this text and was taken while [interrupt_reply] was
    not set. *)
Theorem tts_worker_converts_stripped_text (AudioSegment : Type)
    (synth : string -> AudioSegment)
    (text_queue : list (Flags * option string))
    (tts : TextToSpeech AudioSegment) :
  In (Some tts) (play_speech_puts AudioSegment
                   (handle_tts_queue AudioSegment synth text_queue)) ->
  tts_text _ tts <> EmptyString
  /\ strip (tts_text _ tts) = tts_text _ tts
  /\ speech _ tts = synth (tts_text _ tts)
  /\ exists fl text, In (fl, Some text) text_queue
                     /\ strip text = tts_text _ tts
                     /\ interrupt_reply fl = false.
Proof.
  induction text_queue as [|[fl text] rest IH]; [intros []|].
  cbn [handle_tts_queue]. destruct (exit_chat fl); [intros []|].
  rewrite PipelineFacts.play_puts_app. intros Hin.
  apply in_app_or in Hin. destruct Hin as [Hin | Hin].
  - unfold handle_tts_queue_step in Hin.
    destruct text as [text|].
    + destruct (truthy (strip text)) eqn:Ht;
        destruct (interrupt_reply fl) eqn:Hi; cbn in Hin;
        try contradiction.
      destruct Hin as [Hin | []]. injection Hin as <-. cbn.
      split; [apply StripFacts.truthy_nonempty; exact Ht|].
      split; [apply StripFacts.strip_idempotent|].
      split; [reflexivity|].
      exists fl, text. split; [left; reflexivity|]. split; [reflexivity | exact Hi].
    + cbn in Hin. destruct Hin as [Hin | []]. discriminate.
  - destruct (IH Hin) as [H1 [H2 [H3 [fl' [text' [H4 H5]]]]]].
    repeat split; try assumption.
    exists fl', text'. split; [right; exact H4 | exact H5].
Qed.

Lemma tts_worker_converts_stripped_text_witness :
  strip " Hi. " = "Hi."
  /\ exists fl text,
       In (fl, Some text) [ (quiet, Some " Hi. "); (quiet, None) ]
       /\ strip text = "Hi." /\ interrupt_reply fl = false.
Proof.
  split; [reflexivity|].
  refine (proj2 (proj2 (proj2
    (tts_worker_converts_stripped_text nat String.length
       [ (quiet, Some " Hi. "); (quiet, None) ]
       {| tts_text := "Hi."; speech := 3 |} _)))).
  left. reflexivity.
Defined.

Module PipelineFacts2.
Import PyStr VoiceChat Props MoreProps Loops.

Lemma somes_app {A : Type} (a b : list (option A)) :
  somes (a ++ b) = somes a ++ somes b.
Proof. apply flat_map_app. Qed.

Lemma somes_map_Some {A : Type} (l : list A) : somes (map Some l) = l.
Proof. induction l as [|x l IH]; cbn; [reflexivity|]. f_equal. exact IH. Qed.

Lemma somes_sentences_sentinel (ss : list string) :
  somes (map Some ss ++ [None]) = ss.
Proof. rewrite somes_app, somes_map_Some. cbn. apply app_nil_r. Qed.

Section Workers.

Variable AudioSegment : Type.
Variable empty : AudioSegment.
Variable add : AudioSegment -> AudioSegment -> AudioSegment.
Variable duration_seconds : AudioSegment -> Q.
Variable synth : string -> AudioSegment.

(** The two queues fed by the TTS worker for a complete reply that is
    converted with no flag set. *)
Lemma tts_worker_complete_reply (ss : list string) :
  play_speech_puts AudioSegment
    (handle_tts_queue AudioSegment synth (map (pair quiet) (map Some ss ++ [None])))
  = map Some (map (tts_item synth) (spoken ss)) ++ [None]
  /\ answer_audio_puts AudioSegment
       (handle_tts_queue AudioSegment synth (map (pair quiet) (map Some ss ++ [None])))
     = map Some (map synth (spoken ss)) ++ [None].
Proof.
  destruct (PipelineFacts.tts_worker_quiet AudioSegment synth ss [None]) as [H1 H2].
  rewrite H1, H2. split; reflexivity.
Qed.


Lemma speech_worker_quiet (items : list (TextToSpeech AudioSegment))
    (tail : list (option (TextToSpeech AudioSegment))) :
  handle_speech_queue AudioSegment (map (pair quiet) (map Some items ++ tail))
  = items ++ handle_speech_queue AudioSegment (map (pair quiet) tail).
Proof.
  induction items as [|x items IH]; [reflexivity|].
  cbn [map app handle_speech_queue quiet exit_chat handle_speech_queue_step
       interrupt_reply negb].
  rewrite IH. reflexivity.
Qed.

Lemma play_all (audios : list AudioSegment) (tail : list (option AudioSegment)) :
  play_queued_audios AudioSegment (fun _ => true) (map Some audios ++ None :: tail)
  = (audios, tail, PlayedToEnd).
Proof.
  induction audios as [|a audios IH]; [reflexivity|].
  cbn [map app play_queued_audios]. rewrite IH. reflexivity.
Qed.

(** The state of the history worker after the audios of a reply and its
    sentinel, both outside calls returning. *)
Lemma history_after_reply (cfg : Configs) (now : string)
    (audios : list AudioSegment) (st : HistoryState AudioSegment) :
  let merged := merge add (merged_audio _ st) audios in
  let path := audio_file_path cfg now in
  handle_update_audio_history AudioSegment empty add duration_seconds cfg
    (clean_turns now (map Some audios ++ [None])) st
  = if Qltb (duration_seconds merged) (min_speech_duration_seconds cfg)
    then {| merged_audio := empty;
            history_audio_paths := history_audio_paths _ st;
            exported_files := exported_files _ st;
            published_paths := published_paths _ st ++ [None];
            tasks_done := S (List.length audios + tasks_done _ st) |}
    else {| merged_audio := empty;
            history_audio_paths := history_audio_paths _ st ++ [path];
            exported_files := exported_files _ st ++ [(path, merged)];
            published_paths := published_paths _ st ++ [Some path];
            tasks_done := S (List.length audios + tasks_done _ st) |}.
Proof.
  cbn zeta. rewrite PipelineFacts.history_app, PipelineFacts.history_merges.
  cbn [clean_turns map handle_update_audio_history turn_exit_chat turn_item
       turn_now turn_db_ok turn_export_ok].
  unfold handle_update_audio_history_step.
  cbn [merged_audio history_audio_paths exported_files published_paths
       tasks_done negb].
  destruct (Qltb _ _); reflexivity.
Qed.

Hypothesis duration_empty : (duration_seconds empty == 0)%Q.
Hypothesis duration_add : forall a b,
  (duration_seconds (add a b) == duration_seconds a + duration_seconds b)%Q.

Lemma duration_merge (audios : list AudioSegment) :
  forall start : AudioSegment,
    (duration_seconds (merge add start audios)
     == duration_seconds start + Tokens.Qsum (map duration_seconds audios))%Q.
Proof.
  induction audios as [|a audios IH]; intros start;
    unfold merge, Tokens.Qsum; cbn [map fold_left fold_right].
  - ring.
  - unfold merge, Tokens.Qsum in IH. rewrite IH, duration_add. ring.
Qed.

End Workers.

End PipelineFacts2.

Import PipelineFacts2.

(** X5.  A reply whose stream is consumed to its end, converted and
    played with no flag set, is spoken in the order of its sentences:
    the playback worker hands to [speak], one after the other, the
    items made from the stripped sentences that are not blank. *)
Theorem complete_reply_is_spoken_in_order (AudioSegment : Type)
    (synth : string -> AudioSegment) (rot : bool)
    (stream : list (Flags * AnswerChunk)) :
  existsb (fun x => stop_requested (fst x)) stream = false ->
  let texts := tts_puts (fst (answer_question rot stream)) in
  handle_speech_queue AudioSegment
    (map (pair quiet)
       (play_speech_puts AudioSegment
          (handle_tts_queue AudioSegment synth (map (pair quiet) texts))))
  = map (tts_item synth) (spoken (somes texts)).
Proof.
  intros Hquiet texts. subst texts.
  destruct (PipelineFacts.answer_question_complete rot stream Hquiet)
    as [_ [ss Hss]].
  rewrite Hss, somes_sentences_sentinel.
  rewrite (proj1 (tts_worker_complete_reply AudioSegment synth ss)).
  rewrite speech_worker_quiet. cbn. apply app_nil_r.
Qed.

Lemma complete_reply_is_spoken_in_order_witness :
  handle_speech_queue nat
    (map (pair quiet)
       (play_speech_puts nat
          (handle_tts_queue nat String.length
             (map (pair quiet)
                (tts_puts (fst (answer_question false
                   (map text_chunk ["Hi. "; "How are"; " you?"]))))))))
  = [tts_item String.length "Hi."; tts_item String.length "How are you?"].
Proof.
  apply (complete_reply_is_spoken_in_order nat String.length false
           (map text_chunk ["Hi. "; "How are"; " you?"])).
  reflexivity.
Defined.

(** X6.  For a reply consumed to its end and converted with no flag
    set, the audio history worker (both outside calls returning)
    publishes exactly one path: [None] and no file, or the path of the
    one file written, which holds the audios of the spoken sentences
    merged in order and is attached to the last exchange.  The merge
    buffer is empty afterwards and every queue item is marked done. *)
Theorem complete_reply_publishes_one_path (AudioSegment : Type)
    (empty : AudioSegment) (add : AudioSegment -> AudioSegment -> AudioSegment)
    (duration_seconds : AudioSegment -> Q) (synth : string -> AudioSegment)
    (cfg : Configs) (now : string) (rot : bool)
    (stream : list (Flags * AnswerChunk)) :
  existsb (fun x => stop_requested (fst x)) stream = false ->
  let texts := tts_puts (fst (answer_question rot stream)) in
  let audios := answer_audio_puts AudioSegment
                  (handle_tts_queue AudioSegment synth (map (pair quiet) texts)) in
  let st := handle_update_audio_history AudioSegment empty add duration_seconds
              cfg (clean_turns now audios) (history_start AudioSegment empty) in
  let path := audio_file_path cfg now in
  merged_audio _ st = empty
  /\ tasks_done _ st = List.length audios
  /\ ((published_paths _ st = [None]
       /\ exported_files _ st = [] /\ history_audio_paths _ st = [])
      \/ (published_paths _ st = [Some path]
          /\ exported_files _ st
             = [(path, merge add empty (map synth (spoken (somes texts))))]
          /\ history_audio_paths _ st = [path])).
Proof.
  intros Hquiet texts audios st path. subst texts audios st path.
  destruct (PipelineFacts.answer_question_complete rot stream Hquiet)
    as [_ [ss Hss]].
  rewrite Hss, somes_sentences_sentinel.
  rewrite (proj2 (tts_worker_complete_reply AudioSegment synth ss)).
  rewrite history_after_reply. cbn [history_start merged_audio tasks_done
    history_audio_paths exported_files published_paths app].
  rewrite length_app, !length_map. cbn [List.length].
  destruct (Qltb _ _); cbn [merged_audio tasks_done history_audio_paths
    exported_files published_paths].
  - split; [reflexivity|]. split; [lia|]. left. repeat split.
  - split; [reflexivity|]. split; [lia|]. right. repeat split.
Qed.

Lemma complete_reply_publishes_one_path_witness :
  let cfg := {| min_speech_duration_seconds := 0.05%Q;
                exit_expressions := []; audio_cache_dir := "cache" |} in
  published_paths _
    (handle_update_audio_history Q 0%Q Qplus (fun d => d) cfg
       (clean_turns "t"
          (answer_audio_puts Q
             (handle_tts_queue Q (fun s => inject_Z (Z.of_nat (String.length s)))
                (map (pair quiet)
                   (tts_puts (fst (answer_question false
                      (map text_chunk ["Hi. "; "Bye."]))))))))
       (history_start Q 0%Q))
  = [Some "cache/t.mp3"].
Proof.
  cbn zeta.
  destruct (complete_reply_publishes_one_path Q 0%Q Qplus (fun d => d)
              (fun s => inject_Z (Z.of_nat (String.length s)))
              {| min_speech_duration_seconds := 0.05%Q;
                 exit_expressions := []; audio_cache_dir := "cache" |}
              "t" false (map text_chunk ["Hi. "; "Bye."]) eq_refl)
    as [_ [_ [[H _] | [H _]]]].
  - vm_compute in H. discriminate H.
  - exact H.
Defined.



(** X8.  In the web app, the audios passed on from the playback queue
    of a reply consumed to its end are played by [play_queued_audios],
    when the player returns for each, in the order of the spoken
    sentences; the loop then ends at the sentinel and leaves nothing on
    its queue. *)
Theorem web_playback_plays_reply_in_order (AudioSegment : Type)
    (synth : string -> AudioSegment) (rot : bool)
    (stream : list (Flags * AnswerChunk)) :
  existsb (fun x => stop_requested (fst x)) stream = false ->
  let texts := tts_puts (fst (answer_question rot stream)) in
  play_queued_audios AudioSegment (fun _ => true)
    (map (forward_speech AudioSegment)
       (play_speech_puts AudioSegment
          (handle_tts_queue AudioSegment synth (map (pair quiet) texts))))
  = (map synth (spoken (somes texts)), [], PlayedToEnd).
Proof.
  intros Hquiet texts. subst texts.
  destruct (PipelineFacts.answer_question_complete rot stream Hquiet)
    as [_ [ss Hss]].
  rewrite Hss, somes_sentences_sentinel.
  rewrite (proj1 (tts_worker_complete_reply AudioSegment synth ss)).
  rewrite map_app, !map_map. cbn [map forward_speech tts_item speech].
  rewrite <- (map_map synth Some). apply play_all.
Qed.

Lemma web_playback_plays_reply_in_order_witness :
  play_queued_audios nat (fun _ => true)
    (map (forward_speech nat)
       (play_speech_puts nat
          (handle_tts_queue nat String.length
             (map (pair quiet)
                (tts_puts (fst (answer_question false
                   (map text_chunk ["Hi. "; "How are"; " you?"]))))))))
  = ([3; 12], [], PlayedToEnd).
Proof.
  apply (web_playback_plays_reply_in_order nat String.length false
           (map text_chunk ["Hi. "; "How are"; " you?"])).
  reflexivity.
Defined.

(** X9.  [play_queued_audios] loses no queue item and plays a prefix:
    the queue is the audios played, then the item at which the loop
    stopped (the [None], or the audio for which the player failed),
    then the items left; when it waits for a further item it has played
    the whole queue.  Every audio played is one the player returned
    for. *)
Theorem play_queued_audios_conserves_queue (AudioSegment : Type)
    (render_ok : AudioSegment -> bool) (q : list (option AudioSegment)) :
  let '(played, remaining, state) :=
    play_queued_audios AudioSegment render_ok q in
  Forall (fun a => render_ok a = true) played
  /\ match state with
     | PlayedToEnd => q = map Some played ++ None :: remaining
     | PlayerFailed =>
         exists a, render_ok a = false
                   /\ q = map Some played ++ Some a :: remaining
     | WaitingForAudio => q = map Some played /\ remaining = []
     end.
Proof.
  induction q as [|[a|] q IH]; cbn [play_queued_audios].
  - split; [constructor | split; reflexivity].
  - destruct (render_ok a) eqn:Ha.
    + destruct (play_queued_audios AudioSegment render_ok q)
        as [[played remaining] state].
      destruct IH as [IH1 IH2]. split; [constructor; assumption|].
      destruct state; cbn [map app].
      * rewrite IH2 at 1. reflexivity.
      * destruct IH2 as [b [Hb IH2]]. exists b. split; [exact Hb|].
        rewrite IH2 at 1. reflexivity.
      * destruct IH2 as [IH2 ->]. split; [|reflexivity].
        rewrite IH2 at 1. reflexivity.
    + split; [constructor|]. exists a. split; [exact Ha | reflexivity].
  - split; [constructor | reflexivity].
Qed.

(** X10.  When the duration of audio is additive ([empty] has duration
    0 and the duration of [a + b] is the sum of the two), the audios of
    a reply followed by the sentinel give, both outside calls
    returning: one mp3 file whose duration is the sum of the durations
    of the audios, its path published, if that sum is at least
    [min_speech_duration_seconds]; no file and [None] published if it
    is less. *)
Theorem history_file_duration_is_sum (AudioSegment : Type)
    (empty : AudioSegment) (add : AudioSegment -> AudioSegment -> AudioSegment)
    (duration_seconds : AudioSegment -> Q)
    (cfg : Configs) (now : string) (audios : list AudioSegment) :
  (duration_seconds empty == 0)%Q ->
  (forall a b, (duration_seconds (add a b)
                == duration_seconds a + duration_seconds b)%Q) ->
  let total := Tokens.Qsum (map duration_seconds audios) in
  let st := handle_update_audio_history AudioSegment empty add duration_seconds
              cfg (clean_turns now (map Some audios ++ [None]))
              (history_start AudioSegment empty) in
  ((min_speech_duration_seconds cfg <= total)%Q ->
   exists file : AudioSegment,
     exported_files _ st = [(audio_file_path cfg now, file)]
     /\ (duration_seconds file == total)%Q
     /\ published_paths _ st = [Some (audio_file_path cfg now)])
  /\ ((total < min_speech_duration_seconds cfg)%Q ->
      exported_files _ st = [] /\ published_paths _ st = [None]).
Proof.
  intros Hempty Hadd total st. subst total st.
  rewrite history_after_reply.
  cbn [history_start merged_audio tasks_done history_audio_paths
       exported_files published_paths app].
  pose proof (duration_merge AudioSegment add duration_seconds Hadd
                audios empty) as Hdur.
  rewrite Hempty, Qplus_0_l in Hdur.
  destruct (Qltb (duration_seconds (merge add empty audios))
                 (min_speech_duration_seconds cfg)) eqn:E.
  - apply WorkerFacts.Qltb_lt in E. rewrite Hdur in E. split.
    + intros Hge. exfalso. exact (Qlt_not_le _ _ E Hge).
    + intros _. split; reflexivity.
  - apply WorkerFacts.Qltb_ge in E. rewrite Hdur in E. split.
    + intros _. exists (merge add empty audios).
      split; [reflexivity|]. split; [exact Hdur | reflexivity].
    + intros Hlt. exfalso. exact (Qlt_not_le _ _ Hlt E).
Qed.

Lemma history_file_duration_is_sum_witness :
  let cfg := {| min_speech_duration_seconds := 0.05%Q;
                exit_expressions := []; audio_cache_dir := "cache" |} in
  (exists file : Q,
     exported_files _
       (handle_update_audio_history Q 0%Q Qplus (fun d => d) cfg
          (clean_turns "t" (map Some [1.5; 2.25]%Q ++ [None])) (history_start Q 0%Q))
     = [("cache/t.mp3", file)]
     /\ (file == Tokens.Qsum [1.5; 2.25])%Q)
  /\ published_paths _
       (handle_update_audio_history Q 0%Q Qplus (fun d => d) cfg
          (clean_turns "t" (map Some [0.02%Q] ++ [None])) (history_start Q 0%Q))
     = [None].
Proof.
  cbn zeta. split.
  - destruct (proj1 (history_file_duration_is_sum Q 0%Q Qplus (fun d => d)
        {| min_speech_duration_seconds := 0.05%Q;
           exit_expressions := []; audio_cache_dir := "cache" |}
        "t" [1.5; 2.25]%Q (Qeq_refl 0) (fun a b => Qeq_refl (a + b))))
      as [file [H1 [H2 _]]].
    + discriminate.
    + exists file. split; [exact H1 | exact H2].
  - refine (proj2 (proj2 (history_file_duration_is_sum Q 0%Q Qplus (fun d => d)
        {| min_speech_duration_seconds := 0.05%Q;
           exit_expressions := []; audio_cache_dir := "cache" |}
        "t" [0.02%Q] (Qeq_refl 0) (fun a b => Qeq_refl (a + b))) _)).
    reflexivity.
Defined.



(* ===================================================================== *)
(** * Further properties: the token ledger                                *)
(* ===================================================================== *)

Module LedgerFacts.
Import Tokens Props MoreProps.

Lemma unique_filter (f : TokenRecord -> bool) (db : Table) :
  unique_timestamps db -> unique_timestamps (filter f db).
Proof.
  induction db as [|r db IH]; cbn [filter unique_timestamps]; [trivial|].
  intros [Hr Hdb]. destruct (f r); [|apply IH; exact Hdb].
  split; [|apply IH; exact Hdb].
  rewrite Forall_forall in *. intros r' Hin. apply Hr.
  apply filter_In in Hin. apply Hin.
Qed.

Lemma unique_snoc (db : Table) (r : TokenRecord) :
  unique_timestamps db ->
  (forall r', In r' db -> ~ (timestamp r' == timestamp r)%Q) ->
  unique_timestamps (db ++ [r]).
Proof.
  induction db as [|r0 db IH]; cbn [app unique_timestamps].
  - intros _ _. split; [constructor | exact I].
  - intros [H0 Hdb] Hfresh. split.
    + apply Forall_app. split; [exact H0|].
      constructor; [|constructor].
      intros E. apply (Hfresh r0 (or_introl eq_refl)). symmetry. exact E.
    + apply IH; [exact Hdb|]. intros r' Hin. apply Hfresh. right. exact Hin.
Qed.

Lemma insert_or_replace_unique (r : TokenRecord) (db : Table) :
  unique_timestamps db -> unique_timestamps (insert_or_replace r db).
Proof.
  intros H. unfold insert_or_replace. apply unique_snoc.
  - apply unique_filter. exact H.
  - intros r' Hin E. apply filter_In in Hin. destruct Hin as [_ Hne].
    apply negb_true_iff in Hne.
    assert (Ht : Qeq_bool (timestamp r') (timestamp r) = true)
      by (apply Qeq_bool_iff; exact E).
    congruence.
Qed.

Lemma insert_data_unique (now : Q) (model : option string) (a b : Z)
    (db db' : Table) :
  unique_timestamps db ->
  insert_data now model a b db = Ok db' ->
  unique_timestamps db'.
Proof.
  intros H. unfold insert_data. destruct model as [m|].
  - destruct (dict_get token_price (Some m)); [|discriminate].
    intros E. injection E as <-. apply insert_or_replace_unique. exact H.
  - intros E. injection E as <-. exact H.
Qed.

Lemma insert_all_unique (calls : list Call) :
  forall db, unique_timestamps db -> unique_timestamps (insert_all calls db).
Proof.
  induction calls as [|c calls IH]; intros db H; [exact H|].
  cbn [insert_all].
  destruct (insert_data (called_at c) (call_model c) (call_n_input c)
              (call_n_output c) db) as [db'|k] eqn:E.
  - apply IH. exact (insert_data_unique _ _ _ _ _ _ H E).
  - apply IH. exact H.
Qed.

(** In a table with unique timestamps, the rows with a timestamp other
    than that of a given row are all rows but that one. *)
Lemma filter_other_timestamps_length (t : Q) (db : Table) (r : TokenRecord) :
  unique_timestamps db -> In r db -> (timestamp r == t)%Q ->
  S (List.length (filter (fun r' => negb (Qeq_bool (timestamp r') t)) db))
  = List.length db.
Proof.
  induction db as [|r0 db IH]; [intros _ []|].
  cbn [unique_timestamps filter List.length]. intros [H0 Hdb] Hin Ht.
  destruct Hin as [-> | Hin].
  - assert (E : Qeq_bool (timestamp r) t = true) by (apply Qeq_bool_iff; exact Ht).
    rewrite E. cbn [negb]. f_equal.
    assert (Hall : forall r', In r' db ->
                     negb (Qeq_bool (timestamp r') t) = true).
    { intros r' Hr'. apply negb_true_iff.
      destruct (Qeq_bool (timestamp r') t) eqn:E'; [|reflexivity].
      apply Qeq_bool_iff in E'. rewrite Forall_forall in H0.
      exfalso. apply (H0 r' Hr'). rewrite E', Ht. reflexivity. }
    clear -Hall. induction db as [|x db IH]; [reflexivity|].
    cbn [filter]. rewrite (Hall x (or_introl eq_refl)). cbn [List.length].
    f_equal. apply IH. intros r' Hr'. apply Hall. right. exact Hr'.
  - assert (E : Qeq_bool (timestamp r0) t = false).
    { destruct (Qeq_bool (timestamp r0) t) eqn:E'; [|reflexivity].
      apply Qeq_bool_iff in E'. rewrite Forall_forall in H0.
      exfalso. apply (H0 r Hin). rewrite E', Ht. reflexivity. }
    rewrite E. cbn [negb List.length]. f_equal. apply IH; assumption.
Qed.














Lemma sums_by_model_keys (db : Table) :
  map fst (retrieve_sums_by_model db) = models db.
Proof.
  unfold retrieve_sums_by_model.
  assert (Hall : forall m, In m (models db) -> rows_of m db <> []).
  { intros m Hin Hnil. unfold models in Hin. rewrite nodup_In in Hin.
    apply TokenFacts.rows_of_nil_iff in Hnil. exact (Hnil Hin). }
  induction (models db) as [|m ms IH]; [reflexivity|].
  cbn [flat_map]. rewrite map_app, IH
    by (intros m' Hm'; apply Hall; right; exact Hm').
  specialize (Hall m (or_introl eq_refl)). unfold aggregate.
  destruct (rows_of m db); [congruence | reflexivity].
Qed.

(** A row of the table is the row of one of the calls, or was there
    before. *)
Lemma insert_all_rows (calls : list Call) :
  forall (db : Table) (r : TokenRecord),
    In r (insert_all calls db) ->
    In r db \/ exists c, In c calls /\ row_of_call c = Some r.
Proof.
  induction calls as [|c calls IH]; intros db r Hin; [left; exact Hin|].
  cbn [insert_all] in Hin. rewrite TokenFacts.insert_data_row in Hin.
  destruct (call_model c) as [m|] eqn:Hm.
  - destruct (row_of_call c) as [r0|] eqn:Hr.
    + destruct (IH _ _ Hin) as [H | [c' [Hc' H]]].
      * unfold insert_or_replace in H. apply in_app_or in H.
        destruct H as [H | [<- | []]].
        -- left. apply filter_In in H. apply H.
        -- right. exists c. split; [left; reflexivity | exact Hr].
      * right. exists c'. split; [right; exact Hc' | exact H].
    + destruct (IH _ _ Hin) as [H | [c' [Hc' H]]]; [left; exact H|].
      right. exists c'. split; [right; exact Hc' | exact H].
  - destruct (IH _ _ Hin) as [H | [c' [Hc' H]]]; [left; exact H|].
    right. exists c'. split; [right; exact Hc' | exact H].
Qed.

Lemma token_price_nonneg (k : option string) (p : Price) :
  dict_get token_price k = Some p -> (0 <= input p)%Q /\ (0 <= output p)%Q.
Proof.
  unfold token_price, PRICE_PER_THOUSAND_TOKENS. cbn [map dict_get].
  repeat match goal with
         | |- context [if ?b then _ else _] => destruct b
         end;
    intros H; try discriminate H; injection H as <-;
    split; cbn; discriminate.
Qed.

End LedgerFacts.

Import LedgerFacts TokenReports.

(** X12.  The primary key of [token_costs] is kept: an [insert_data]
    that returns leaves a table with pairwise different timestamps as
    such a table, and so every table built by [insert_data] calls from
    the empty table has pairwise different timestamps, whatever the
    clock readings of the calls. *)
Theorem ledger_timestamps_stay_unique :
  (forall (now : Q) (model : option string) (n_in n_out : Z) (db db' : Table),
      unique_timestamps db ->
      insert_data now model n_in n_out db = Ok db' ->
      unique_timestamps db')
  /\ (forall calls : list Call, unique_timestamps (insert_all calls [])).
Proof.
  split.
  - exact insert_data_unique.
  - intros calls. apply insert_all_unique. exact I.
Qed.

Lemma ledger_timestamps_stay_unique_witness :
  unique_timestamps
    (insert_or_replace
       {| timestamp := 5; model := "gpt-4"; n_input_tokens := 1;
          n_output_tokens := 2;
          cost_input_tokens := inject_Z 1 * (0.03 / 1000);
          cost_output_tokens := inject_Z 2 * (0.06 / 1000) |}%Q []).
Proof.
  apply (proj1 ledger_timestamps_stay_unique 5%Q (Some "gpt-4") 1%Z 2%Z [] _ I).
  reflexivity.
Defined.

(** X13.  An [insert_data] for a priced model at a timestamp that a row
    of the table already has replaces that row: the table keeps its
    length, the new row is its only row with that timestamp, and the
    rows with other timestamps are as before. *)
Theorem insert_at_existing_timestamp_replaces (now : Q) (m : string)
    (n_in n_out : Z) (db : Table) (r_old : TokenRecord) (price : Price) :
  unique_timestamps db ->
  In r_old db ->
  (timestamp r_old == now)%Q ->
  dict_get PRICE_PER_THOUSAND_TOKENS (Some m) = Some price ->
  exists (db' : Table) (r_new : TokenRecord),
    insert_data now (Some m) n_in n_out db = Ok db'
    /\ List.length db' = List.length db
    /\ In r_new db'
    /\ model r_new = m /\ n_input_tokens r_new = n_in
    /\ n_output_tokens r_new = n_out
    /\ (forall r, In r db' -> (timestamp r == now)%Q -> r = r_new)
    /\ (forall r, ~ (timestamp r == now)%Q -> (In r db' <-> In r db)).
Proof.
  intros Hu Hin Ht Hprice.
  assert (Hp : dict_get token_price (Some m) = Some (per_token price))
    by (rewrite TokenFacts.dict_get_token_price, Hprice; reflexivity).
  unfold insert_data. rewrite Hp.
  eexists. eexists. split; [reflexivity|].
  unfold insert_or_replace. cbn [timestamp].
  split.
  { rewrite length_app. cbn [List.length].
    rewrite <- (filter_other_timestamps_length now db r_old Hu Hin Ht). lia. }
  split; [apply in_or_app; right; left; reflexivity|].
  split; [reflexivity|]. split; [reflexivity|]. split; [reflexivity|].
  split.
  - intros r Hr Hrt. apply in_app_or in Hr. destruct Hr as [Hr | [<- | []]];
      [|reflexivity].
    apply filter_In in Hr. destruct Hr as [_ Hne].
    apply negb_true_iff in Hne.
    assert (E : Qeq_bool (timestamp r) now = true) by (apply Qeq_bool_iff; exact Hrt).
    congruence.
  - intros r Hrt. split.
    + intros Hr. apply in_app_or in Hr. destruct Hr as [Hr | [<- | []]].
      * apply filter_In in Hr. apply Hr.
      * exfalso. apply Hrt. reflexivity.
    + intros Hr. apply in_or_app. left. apply filter_In. split; [exact Hr|].
      apply negb_true_iff.
      destruct (Qeq_bool (timestamp r) now) eqn:E; [|reflexivity].
      apply Qeq_bool_iff in E. contradiction.
Qed.

Lemma insert_at_existing_timestamp_replaces_witness :
  let old := {| timestamp := 5; model := "gpt-4"; n_input_tokens := 1;
                n_output_tokens := 2; cost_input_tokens := 0;
                cost_output_tokens := 0 |}%Q in
  exists db' r_new,
    insert_data 5%Q (Some "gpt-3.5-turbo") 10 20 [old] = Ok db'
    /\ List.length db' = 1 /\ In r_new db'
    /\ model r_new = "gpt-3.5-turbo".
Proof.
  cbn zeta.
  destruct (insert_at_existing_timestamp_replaces 5%Q "gpt-3.5-turbo" 10 20
              [ {| timestamp := 5; model := "gpt-4"; n_input_tokens := 1;
                   n_output_tokens := 2; cost_input_tokens := 0;
                   cost_output_tokens := 0 |}%Q ]
              {| timestamp := 5; model := "gpt-4"; n_input_tokens := 1;
                 n_output_tokens := 2; cost_input_tokens := 0;
                 cost_output_tokens := 0 |}%Q
              {| input := 0.0015; output := 0.002 |}%Q)
    as [db' [r_new [H1 [H2 [H3 [H4 _]]]]]].
  - split; [constructor | exact I].
  - left. reflexivity.
  - reflexivity.
  - reflexivity.
  - exists db', r_new. repeat split; assumption.
Defined.


(** X15.  [retrieve_sums_by_model] has one entry per model of the
    table: its keys are pairwise different, a model is a key exactly
    when a row has it, and a model without rows is looked up in
    vain. *)
Theorem sums_by_model_has_one_entry_per_model (db : Table) :
  NoDup (map fst (retrieve_sums_by_model db))
  /\ (forall m, In m (map fst (retrieve_sums_by_model db))
                <-> exists r, In r db /\ model r = m)
  /\ (forall m, sums_get m (retrieve_sums_by_model db) = None
                <-> forall r, In r db -> model r <> m).
Proof.
  rewrite sums_by_model_keys. split; [apply NoDup_nodup|]. split.
  - intros m. unfold models. rewrite nodup_In, in_map_iff.
    split; intros [r [H1 H2]]; exists r; split; assumption.
  - intros m. rewrite TokenFacts.sums_get_aggregate. unfold aggregate.
    split.
    + intros H r Hr Hm.
      assert (Hin : In r (rows_of m db)) by (apply TokenFacts.in_rows_of; auto).
      destruct (rows_of m db); [contradiction | discriminate].
    + intros H. destruct (rows_of m db) as [|r rows] eqn:E; [reflexivity|].
      exfalso.
      assert (Hin : In r (rows_of m db)) by (rewrite E; left; reflexivity).
      apply TokenFacts.in_rows_of in Hin. exact (H r (proj1 Hin) (proj2 Hin)).
Qed.

(** X16.  In a table built by [insert_data] calls from the empty table
    with token counts that are not negative, no row has a negative
    cost. *)
Theorem ledger_costs_are_nonnegative (calls : list Call) (r : TokenRecord) :
  (forall c, In c calls -> (0 <= call_n_input c)%Z /\ (0 <= call_n_output c)%Z) ->
  In r (insert_all calls []) ->
  (0 <= cost_input_tokens r)%Q /\ (0 <= cost_output_tokens r)%Q.
Proof.
  intros Hpos Hin.
  destruct (insert_all_rows calls [] r Hin) as [[] | [c [Hc Hr]]].
  destruct (TokenFacts.row_of_call_fields c r Hr)
    as [p [Hp [_ [_ [_ [Hci Hco]]]]]].
  destruct (token_price_nonneg _ _ Hp) as [Hpi Hpo].
  destruct (Hpos c Hc) as [Hi Ho].
  rewrite Hci, Hco. split; apply Qmult_le_0_compat; try assumption.
  - change 0%Q with (inject_Z 0). rewrite <- Zle_Qle. exact Hi.
  - change 0%Q with (inject_Z 0). rewrite <- Zle_Qle. exact Ho.
Qed.

Lemma ledger_costs_are_nonnegative_witness :
  (0 <= cost_input_tokens
          {| timestamp := 5; model := "gpt-4"; n_input_tokens := 1000;
             n_output_tokens := 500;
             cost_input_tokens := inject_Z 1000 * (0.03 / 1000);
             cost_output_tokens := inject_Z 500 * (0.06 / 1000) |})%Q.
Proof.
  refine (proj1 (ledger_costs_are_nonnegative
                   [ {| called_at := 5%Q; call_model := Some "gpt-4";
                        call_n_input := 1000; call_n_output := 500 |} ] _ _ _)).
  - intros c [<- | []]. cbn. split; discriminate.
  - left. reflexivity.
Defined.

Module ReportFacts.
Import Tokens Props MoreProps LedgerFacts TokenReports.




Lemma current_chat_rows_ok (usage : list (option string * TokenUsage))
    (rows : list (string * UsageRow)) :
  current_chat_rows usage = Ok rows ->
  map fst rows = somes (map fst usage)
  /\ forall m row, In (m, row) rows ->
       exists u price,
         In (Some m, u) usage
         /\ dict_get token_price (Some m) = Some price
         /\ tokens_input row = usage_input u
         /\ tokens_output row = usage_output u
         /\ tokens_total row = (usage_input u + usage_output u)%Z
         /\ cost_input row = (inject_Z (usage_input u) * input price)%Q
         /\ cost_output row = (inject_Z (usage_output u) * output price)%Q
         /\ (cost_total row == cost_input row + cost_output row)%Q.
Proof.
  revert rows. induction usage as [|[[m|] u] usage IH]; intros rows H.
  - injection H as <-. split; [reflexivity | intros m row []].
  - cbn [current_chat_rows] in H.
    destruct (dict_get token_price (Some m)) as [price|] eqn:Hp; [|discriminate].
    destruct (current_chat_rows usage) as [rows'|k]; [|discriminate].
    injection H as <-. destruct (IH rows' eq_refl) as [IH1 IH2]. split.
    + cbn. f_equal. exact IH1.
    + intros m' row [Heq | Hin].
      * injection Heq as <- <-. exists u, price.
        split; [left; reflexivity|]. split; [exact Hp|].
        cbn. repeat split; try reflexivity. ring.
      * destruct (IH2 m' row Hin) as [u' [price' [H1 H2]]].
        exists u', price'. split; [right; exact H1 | exact H2].
  - cbn [current_chat_rows] in H. destruct (IH rows H) as [IH1 IH2]. split.
    + exact IH1.
    + intros m' row Hin. destruct (IH2 m' row Hin) as [u' [price' [H1 H2]]].
      exists u', price'. split; [right; exact H1 | exact H2].
Qed.

Lemma current_chat_rows_error (usage : list (option string * TokenUsage))
    (k : string) :
  current_chat_rows usage = KeyError k ->
  exists u, In (Some k, u) usage /\ dict_get token_price (Some k) = None.
Proof.
  induction usage as [|[[m|] u] usage IH]; intros H.
  - discriminate.
  - cbn [current_chat_rows] in H.
    destruct (dict_get token_price (Some m)) as [price|] eqn:Hp.
    + destruct (current_chat_rows usage) as [rows'|k']; [discriminate|].
      injection H as ->. destruct (IH eq_refl) as [u' [H1 H2]].
      exists u'. split; [right; exact H1 | exact H2].
    + injection H as <-. exists u. split; [left; reflexivity | exact Hp].
  - cbn [current_chat_rows] in H. destruct (IH H) as [u' [H1 H2]].
    exists u'. split; [right; exact H1 | exact H2].
Qed.

End ReportFacts.

Import ReportFacts.



(** X18.  The rows of the current-chat report: the report fails with
    [KeyError] exactly on a model (other than [None]) without a price,
    and then as a whole; otherwise it has one row per model that is not
    [None], in order, whose total is input plus output tokens and whose
    costs are the costs that [insert_data] stores for the same model
    and token counts. *)
Theorem current_chat_report_prices_like_the_ledger
    (usage : list (option string * TokenUsage)) :
  match current_chat_rows usage with
  | KeyError k =>
      exists u, In (Some k, u) usage
                /\ dict_get PRICE_PER_THOUSAND_TOKENS (Some k) = None
  | Ok rows =>
      map fst rows = somes (map fst usage)
      /\ forall m row, In (m, row) rows ->
           exists u, In (Some m, u) usage
             /\ tokens_input row = usage_input u
             /\ tokens_output row = usage_output u
             /\ tokens_total row = (usage_input u + usage_output u)%Z
             /\ (cost_total row == cost_input row + cost_output row)%Q
             /\ forall now db, exists r,
                  insert_data now (Some m) (usage_input u) (usage_output u) db
                  = Ok (insert_or_replace r db)
                  /\ cost_input row = cost_input_tokens r
                  /\ cost_output row = cost_output_tokens r
  end.
Proof.
  destruct (current_chat_rows usage) as [rows|k] eqn:E.
  - destruct (current_chat_rows_ok usage rows E) as [H1 H2].
    split; [exact H1|]. intros m row Hin.
    destruct (H2 m row Hin) as [u [price [Hu [Hp [Hi [Ho [Ht [Hci [Hco Hct]]]]]]]]].
    exists u. repeat (split; [assumption|]).
    intros now db. unfold insert_data. rewrite Hp.
    eexists. split; [reflexivity|]. cbn. split; assumption.
  - destruct (current_chat_rows_error usage k E) as [u [Hu Hp]].
    exists u. split; [exact Hu|].
    rewrite TokenFacts.dict_get_token_price in Hp.
    destruct (dict_get PRICE_PER_THOUSAND_TOKENS (Some k)); [discriminate|].
    reflexivity.
Qed.

Lemma current_chat_report_prices_like_the_ledger_witness :
  exists u, In (Some "gpt-4", u)
              [ (None, {| usage_input := 1; usage_output := 1 |});
                (Some "gpt-4", {| usage_input := 1000; usage_output := 500 |}) ]
            /\ usage_input u = 1000%Z.
Proof.
  pose proof (current_chat_report_prices_like_the_ledger
                [ (None, {| usage_input := 1; usage_output := 1 |});
                  (Some "gpt-4", {| usage_input := 1000; usage_output := 500 |}) ])
    as H.
  cbn [current_chat_rows] in H.
  change (dict_get token_price (Some "gpt-4"))
    with (Some {| input := (0.03 / 1000)%Q; output := (0.06 / 1000)%Q |}) in H.
  cbn iota beta zeta in H.
  destruct H as [_ H].
  destruct (H "gpt-4" _ (or_introl eq_refl)) as [u [Hu [Hi _]]].
  exists u. split; [exact Hu|]. rewrite <- Hi. reflexivity.
Defined.


(* ===================================================================== *)
(** * Further properties: the prompt queues of the web app                *)
(* ===================================================================== *)

Module PromptQueueFacts.
Import PyStr AppUtils Props AppPages.

Lemma filter_spec {A : Type} (app_page : AppPage) (q : list (Entry A)) :
  filter_page_info_from_queue app_page q
  = (filter (on_page app_page) q,
     filter (fun e => negb (on_page app_page e)) q).
Proof.
  unfold filter_page_info_from_queue.
  rewrite QueueFacts.filter_loop_spec. reflexivity.
Qed.

Lemma filter_none {A : Type} (f : A -> bool) (l : list A) :
  (forall x, In x l -> f x = false) -> filter f l = [].
Proof.
  induction l as [|x l IH]; intros H; [reflexivity|].
  cbn [filter]. rewrite (H x (or_introl eq_refl)).
  apply IH. intros y Hy. apply H. right. exact Hy.
Qed.

Lemma filter_all {A : Type} (f : A -> bool) (l : list A) :
  (forall x, In x l -> f x = true) -> filter f l = l.
Proof.
  induction l as [|x l IH]; intros H; [reflexivity|].
  cbn [filter]. rewrite (H x (or_introl eq_refl)). f_equal.
  apply IH. intros y Hy. apply H. right. exact Hy.
Qed.

Lemma filter_swap {A : Type} (f g : A -> bool) (l : list A) :
  filter f (filter g l) = filter g (filter f l).
Proof.
  induction l as [|x l IH]; [reflexivity|].
  cbn [filter]. destruct (g x) eqn:Hg; destruct (f x) eqn:Hf; cbn [filter];
    rewrite ?Hg, ?Hf, IH; reflexivity.
Qed.

Lemma filter_implied {A : Type} (f g : A -> bool) (l : list A) :
  (forall x, f x = true -> g x = true) ->
  filter f (filter g l) = filter f l.
Proof.
  intros H. induction l as [|x l IH]; [reflexivity|].
  cbn [filter]. destruct (g x) eqn:Hg; cbn [filter].
  - rewrite IH. reflexivity.
  - destruct (f x) eqn:Hf; [|exact IH].
    rewrite (H x Hf) in Hg. discriminate.
Qed.

Lemma other_page {A : Type} (p1 p2 : AppPage) (e : Entry A) :
  page_id p1 <> page_id p2 ->
  on_page p2 e = true -> negb (on_page p1 e) = true.
Proof.
  unfold on_page. intros Hne H2. apply String.eqb_eq in H2.
  apply negb_true_iff, String.eqb_neq. congruence.
Qed.

End PromptQueueFacts.

Import PromptQueueFacts AppPages.

(** X20.  Filtering a queue for a page a second time finds nothing and
    leaves the queue as the first filtering left it; filtering for a
    page that has no entry in the queue returns nothing and leaves the
    queue unchanged. *)
Theorem filtering_again_finds_nothing (A : Type) (app_page : AppPage)
    (the_queue : list (Entry A)) :
  (let remaining := snd (filter_page_info_from_queue app_page the_queue) in
   filter_page_info_from_queue app_page remaining = ([], remaining))
  /\ (Forall (fun e => page_id (page e) <> page_id app_page) the_queue ->
      filter_page_info_from_queue app_page the_queue = ([], the_queue)).
Proof.
  split.
  - cbn zeta. rewrite !filter_spec. cbn [snd]. f_equal.
    + apply filter_none. intros e He. apply filter_In in He.
      apply negb_true_iff, He.
    + apply filter_all. intros e He. apply filter_In in He. apply He.
  - intros H. rewrite Forall_forall in H. rewrite filter_spec. f_equal.
    + apply filter_none. intros e He. apply String.eqb_neq, H, He.
    + apply filter_all. intros e He. apply negb_true_iff, String.eqb_neq, H, He.
Qed.

Lemma filtering_again_finds_nothing_witness :
  filter_page_info_from_queue {| page_id := "a" |}
    [ {| page := {| page_id := "b" |}; data := 1 |};
      {| page := {| page_id := "c" |}; data := 2 |} ]
  = ([], [ {| page := {| page_id := "b" |}; data := 1 |};
           {| page := {| page_id := "c" |}; data := 2 |} ]).
Proof.
  apply (proj2 (filtering_again_finds_nothing nat {| page_id := "a" |} _)).
  repeat constructor; discriminate.
Defined.

(** X21.  Filtering for two pages with different ids does not depend on
    the order: what is returned for the second page is what filtering
    the original queue for it returns, and the queue left is the same
    either way. *)
Theorem filtering_two_pages_commutes (A : Type) (page1 page2 : AppPage)
    (the_queue : list (Entry A)) :
  page_id page1 <> page_id page2 ->
  let after1 := snd (filter_page_info_from_queue page1 the_queue) in
  let after2 := snd (filter_page_info_from_queue page2 the_queue) in
  fst (filter_page_info_from_queue page2 after1)
  = fst (filter_page_info_from_queue page2 the_queue)
  /\ snd (filter_page_info_from_queue page2 after1)
     = snd (filter_page_info_from_queue page1 after2).
Proof.
  intros Hne. cbn zeta. rewrite !filter_spec. cbn [fst snd]. split.
  - apply filter_implied. intros e. apply other_page. exact Hne.
  - apply filter_swap.
Qed.

Lemma filtering_two_pages_commutes_witness :
  let q := [ {| page := {| page_id := "a" |}; data := 1 |};
             {| page := {| page_id := "b" |}; data := 2 |};
             {| page := {| page_id := "a" |}; data := 3 |} ] in
  fst (filter_page_info_from_queue {| page_id := "b" |}
         (snd (filter_page_info_from_queue {| page_id := "a" |} q)))
  = fst (filter_page_info_from_queue {| page_id := "b" |} q).
Proof.
  cbn zeta.
  refine (proj1 (filtering_two_pages_commutes nat {| page_id := "a" |}
                   {| page_id := "b" |} _ _)).
  discriminate.
Defined.

(** X22.  One round of the wait for a continuous prompt takes all
    entries of the page off the prompt queue and leaves the entries of
    other pages in their order.  It yields a prompt only if the oldest
    entry of the page has a text that is not empty, and then this
    text; the later entries of the page are taken off with it and not
    looked at, so that the next round finds nothing for the page and
    leaves the queue as it is. *)
Theorem prompt_round_takes_all_entries_of_page (app_page : AppPage)
    (text_prompt_queue : list (Entry string)) :
  let prompt := fst (continuous_text_prompt_round app_page text_prompt_queue) in
  let the_queue := snd (continuous_text_prompt_round app_page text_prompt_queue) in
  the_queue = filter (fun e => negb (on_page app_page e)) text_prompt_queue
  /\ prompt = match filter (on_page app_page) text_prompt_queue with
              | [] => None
              | oldest :: _ =>
                  if truthy (data oldest) then Some (data oldest) else None
              end
  /\ continuous_text_prompt_round app_page the_queue = (None, the_queue).
Proof.
  cbn zeta. unfold continuous_text_prompt_round. rewrite !filter_spec.
  assert (Hsnd : snd (match filter (on_page app_page) text_prompt_queue with
                      | [] => (None,
                               filter (fun e => negb (on_page app_page e))
                                      text_prompt_queue)
                      | entry :: _ =>
                          if truthy (data entry)
                          then (Some (data entry),
                                filter (fun e => negb (on_page app_page e))
                                       text_prompt_queue)
                          else (None,
                                filter (fun e => negb (on_page app_page e))
                                       text_prompt_queue)
                      end)
                 = filter (fun e => negb (on_page app_page e)) text_prompt_queue).
  { destruct (filter (on_page app_page) text_prompt_queue) as [|e l];
      [reflexivity|]. destruct (truthy (data e)); reflexivity. }
  rewrite Hsnd. split; [reflexivity|]. split.
  - destruct (filter (on_page app_page) text_prompt_queue) as [|e l];
      [reflexivity|]. destruct (truthy (data e)); reflexivity.
  - rewrite filter_none, filter_all; [reflexivity | |].
    + intros e He. apply filter_In in He. apply He.
    + intros e He. apply filter_In in He. apply negb_true_iff, He.
Qed.

(* ===================================================================== *)
(** * Further properties: listen                                          *)
(* ===================================================================== *)

Module ListenFacts.
Import VoiceChat Listen Props MoreProps.

Lemma timedelta_seconds_le (later earlier : Z) :
  (earlier <= later)%Z ->
  (timedelta_seconds later earlier * 1000000 <= later - earlier)%Z.
Proof.
  intros H. unfold timedelta_seconds.
  assert (H0 : (0 <= later - earlier)%Z) by lia.
  assert (H1 : (0 <= (later - earlier) / 1000000)%Z)
    by (apply Z.div_pos; lia).
  pose proof (Z.mod_le _ 86400 H1 ltac:(lia)) as H2.
  pose proof (Z.mul_div_le (later - earlier) 1000000 ltac:(lia)) as H3.
  lia.
Qed.

Section Recording.

Variable Data : Type.
Variable cfg : ListenConfigs.
Variable start_time : Z.
Variable maxlen : nat.

Lemma record_stopped (duration : option Q) (blocks : list (Block Data))
    (st : Recording Data) :
  keeps_recording Data duration st = false ->
  record Data cfg duration start_time maxlen blocks st = st.
Proof. intros H. destruct blocks; cbn [record]; [|rewrite H]; reflexivity. Qed.

Lemma record_app (duration : option Q) (a b : list (Block Data)) :
  forall st : Recording Data,
    record Data cfg duration start_time maxlen (a ++ b) st
    = record Data cfg duration start_time maxlen b
        (record Data cfg duration start_time maxlen a st).
Proof.
  induction a as [|x a IH]; intros st; [reflexivity|].
  cbn [app record].
  destruct (keeps_recording Data duration st) eqn:E; [apply IH|].
  symmetry. apply record_stopped. exact E.
Qed.


(** With a duration, the loop reads a prefix of the blocks, goes on
    wanting to record, and keeps as elapsed time the whole seconds at
    the last block read. *)
Lemma timed_record_prefix (d : Q) (blocks : list (Block Data)) :
  forall st : Recording Data,
    continue_recording _ st = true ->
    let r := record Data cfg (Some d) start_time maxlen blocks st in
    continue_recording _ r = true
    /\ speech_detected _ r = speech_detected _ st
    /\ exists read unread,
         blocks = read ++ unread
         /\ sound_file _ r = sound_file _ st ++ map new_data read
         /\ ((read = [] /\ elapsed_time _ r = elapsed_time _ st)
             \/ exists pre b, read = pre ++ [b]
                  /\ elapsed_time _ r = timedelta_seconds (now b) start_time).
Proof.
  induction blocks as [|b blocks IH]; intros st Hc; cbn zeta.
  - cbn [record]. split; [exact Hc|]. split; [reflexivity|].
    exists [], []. split; [reflexivity|]. split; [symmetry; apply app_nil_r|].
    left. split; reflexivity.
  - cbn [record]. destruct (keeps_recording Data (Some d) st).
    + specialize (IH (record_block Data cfg (Some d) start_time maxlen st b)
                     eq_refl).
      cbn zeta in IH. destruct IH as [I1 [I2 [read [unread [I3 [I4 I5]]]]]].
      split; [exact I1|]. split; [exact I2|].
      exists (b :: read), unread. split; [cbn; f_equal; exact I3|].
      split.
      * rewrite I4. cbn. rewrite <- app_assoc. reflexivity.
      * right. destruct I5 as [[-> I5] | [pre [b' [-> I5]]]].
        -- exists [], b. split; [reflexivity|]. rewrite I5. reflexivity.
        -- exists (b :: pre), b'. split; [reflexivity | exact I5].
    + split; [exact Hc|]. split; [reflexivity|].
      exists [], (b :: blocks). split; [reflexivity|].
      split; [symmetry; apply app_nil_r|]. left. split; reflexivity.
Qed.

(** Without a duration, blocks at which no check is due are recorded
    and their verdicts appended to the deque; nothing else changes. *)
Lemma untimed_record_before_check (first_check : Z) (pre : list (Block Data)) :
  forall st : Recording Data,
    continue_recording _ st = true ->
    last_inactivity_checked _ st = first_check ->
    Forall (fun b => check_due cfg first_check b = false) pre ->
    let r := record Data cfg None start_time maxlen pre st in
    voice_activity_detected _ r
    = fold_left (deque_append maxlen)
        (map vad_thinks_this_chunk_is_speech pre) (voice_activity_detected _ st)
    /\ last_inactivity_checked _ r = first_check
    /\ continue_recording _ r = true
    /\ speech_detected _ r = speech_detected _ st
    /\ sound_file _ r = sound_file _ st ++ map new_data pre.
Proof.
  induction pre as [|b pre IH]; intros st Hc Hl Hpre; cbn zeta.
  - cbn. rewrite app_nil_r. repeat split; assumption.
  - apply Forall_cons_iff in Hpre. destruct Hpre as [Hb Hpre].
    cbn [record].
    assert (Hk : keeps_recording Data None st = true)
      by (unfold keeps_recording; rewrite Hc; reflexivity).
    rewrite !Hk.
    assert (Hstep : record_block Data cfg None start_time maxlen st b
              = {| voice_activity_detected :=
                     deque_append maxlen (voice_activity_detected _ st)
                       (vad_thinks_this_chunk_is_speech b);
                   last_inactivity_checked := last_inactivity_checked _ st;
                   continue_recording := continue_recording _ st;
                   speech_detected := speech_detected _ st;
                   elapsed_time := timedelta_seconds (now b) start_time;
                   sound_file := sound_file _ st ++ [new_data b] |}).
    { unfold record_block. unfold check_due in Hb. rewrite Hl.
      unfold timeout. rewrite Hb. reflexivity. }
    rewrite Hstep.
    match goal with
    | |- context [record Data cfg None start_time maxlen pre ?s] =>
        specialize (IH s Hc Hl Hpre)
    end.
    cbn zeta in IH.
    cbn [voice_activity_detected last_inactivity_checked continue_recording
         speech_detected sound_file] in IH.
    destruct IH as [I1 [I2 [I3 [I4 I5]]]].
    split; [exact I1|]. split; [exact I2|]. split; [exact I3|].
    split; [exact I4|].
    rewrite I5, <- app_assoc. reflexivity.
Qed.

Lemma untimed_speech_detected_stays (blocks : list (Block Data)) :
  forall st : Recording Data,
    speech_detected _ st = true ->
    speech_detected _ (record Data cfg None start_time maxlen blocks st) = true.
Proof.
  induction blocks as [|b blocks IH]; intros st H; [exact H|].
  cbn [record]. destruct (keeps_recording Data None st); [|exact H].
  apply IH. unfold record_block.
  destruct (Qle_bool _ _); cbn; [|exact H].
  destruct (Qle_bool _ _); [reflexivity | exact H].
Qed.

End Recording.

End ListenFacts.

Import Listen ListenFacts.


(** X24.  A [listen] with a duration that returns has read a prefix of
    the blocks and returns exactly these.  It stops only at a block at
    which the whole seconds elapsed since the start reach the duration,
    so that (the clock not running backwards) at least the duration has
    passed in real time; it reads no block only if the duration is not
    positive. *)
Theorem timed_listen_lasts_its_duration (Data : Type) (cfg : ListenConfigs)
    (d : Q) (start_time first_check : Z) (blocks : list (Block Data))
    (recorded : list Data) :
  listen Data cfg (Some d) start_time first_check blocks = FromWav Data recorded ->
  exists read unread,
    blocks = read ++ unread
    /\ recorded = map new_data read
    /\ ((read = [] /\ (d <= 0)%Q)
        \/ exists pre b,
             read = pre ++ [b]
             /\ (d <= inject_Z (timedelta_seconds (now b) start_time))%Q
             /\ ((start_time <= now b)%Z ->
                 (d * 1000000 <= inject_Z (now b - start_time))%Q)).
Proof.
  unfold listen.
  destruct (deque_maxlen (timeout cfg (Some d)) (frame_duration cfg))
    as [maxlen|]; [|discriminate].
  cbn zeta.
  destruct (timed_record_prefix Data cfg start_time maxlen d blocks
              (recording_start Data first_check) eq_refl)
    as [Hc [_ [read [unread [Hb [Hs He]]]]]].
  cbn zeta in *.
  destruct (keeps_recording Data (Some d)
              (record Data cfg (Some d) start_time maxlen blocks
                 (recording_start Data first_check))) eqn:Hk; [discriminate|].
  rewrite orb_true_r. intros H. injection H as <-.
  exists read, unread. split; [exact Hb|]. split; [exact Hs|].
  unfold keeps_recording in Hk. rewrite Hc in Hk. cbn [andb] in Hk.
  apply WorkerFacts.Qltb_ge in Hk.
  destruct He as [[-> He] | [pre [b [-> He]]]].
  - left. split; [reflexivity|]. rewrite He in Hk. exact Hk.
  - right. exists pre, b. split; [reflexivity|]. rewrite He in Hk.
    split; [exact Hk|]. intros Hclock.
    apply Qle_trans
      with (inject_Z (timedelta_seconds (now b) start_time) * 1000000)%Q.
    + apply Qmult_le_compat_r; [exact Hk | discriminate].
    + change 1000000%Q with (inject_Z 1000000).
      rewrite <- inject_Z_mult, <- Zle_Qle.
      apply timedelta_seconds_le. exact Hclock.
Qed.

Lemma timed_listen_lasts_its_duration_witness :
  let cfg := {| inactivity_timeout_seconds := 1; frame_duration := 20;
                speech_likelihood_threshold := 0.5 |}%Q in
  let block (t : Z) := {| new_data := t; vad_thinks_this_chunk_is_speech := false;
                          now := t |} in
  exists read unread,
    [block 400000; block 1200000; block 1700000]%Z = read ++ unread
    /\ [400000; 1200000]%Z = map new_data read.
Proof.
  cbn zeta.
  destruct (timed_listen_lasts_its_duration Z
              {| inactivity_timeout_seconds := 1; frame_duration := 20;
                 speech_likelihood_threshold := 0.5 |}%Q
              0.5%Q 0%Z 0%Z
              [ {| new_data := 400000; vad_thinks_this_chunk_is_speech := false;
                   now := 400000 |};
                {| new_data := 1200000; vad_thinks_this_chunk_is_speech := false;
                   now := 1200000 |};
                {| new_data := 1700000; vad_thinks_this_chunk_is_speech := false;
                   now := 1700000 |} ]%Z
              [400000; 1200000]%Z eq_refl)
    as [read [unread [H1 [H2 _]]]].
  exists read, unread. split; [exact H1 | exact H2].
Defined.

(** X25.  A [listen] without duration hinges on its first inactivity
    check.  When the blocks before a block are all read before a check
    is due, and the check is due at that block: if the share of speech
    verdicts in the deque is then below the threshold, [listen] returns
    the empty audio and the recording is dropped, whatever was heard;
    if the share reaches the threshold, [listen] never returns the
    empty audio, whatever follows. *)
Theorem untimed_listen_hinges_on_first_check (Data : Type) (cfg : ListenConfigs)
    (start_time first_check : Z) (maxlen : nat)
    (pre : list (Block Data)) (b : Block Data) (post : list (Block Data)) :
  deque_maxlen (inactivity_timeout_seconds cfg) (frame_duration cfg) = Some maxlen ->
  Forall (fun b' => check_due cfg first_check b' = false) pre ->
  check_due cfg first_check b = true ->
  let share := speech_likelihood
                 (window maxlen (map vad_thinks_this_chunk_is_speech (pre ++ [b]))) in
  ((share < speech_likelihood_threshold cfg)%Q ->
   listen Data cfg None start_time first_check (pre ++ b :: post) = EmptyAudio Data)
  /\ ((speech_likelihood_threshold cfg <= share)%Q ->
      listen Data cfg None start_time first_check (pre ++ b :: post)
      <> EmptyAudio Data).
Proof.
  intros Hmax Hpre Hdue share. unfold listen, timeout. rewrite Hmax. cbn zeta.
  rewrite record_app.
  destruct (untimed_record_before_check Data cfg start_time maxlen first_check
              pre (recording_start Data first_check) eq_refl eq_refl Hpre)
    as [H1 [H2 [H3 [H4 H5]]]].
  cbn zeta in *.
  set (st := record Data cfg None start_time maxlen pre
               (recording_start Data first_check)) in *.
  cbn [record].
  assert (Hk : keeps_recording Data None st = true)
    by (unfold keeps_recording; rewrite H3; reflexivity).
  rewrite !Hk.
  assert (Hwindow : deque_append maxlen (voice_activity_detected _ st)
                      (vad_thinks_this_chunk_is_speech b)
                    = window maxlen
                        (map vad_thinks_this_chunk_is_speech (pre ++ [b]))).
  { unfold window. rewrite map_app, fold_left_app, H1. reflexivity. }
  assert (Hstep : record_block Data cfg None start_time maxlen st b
            = let continue := Qle_bool (speech_likelihood_threshold cfg) share in
              {| voice_activity_detected :=
                   window maxlen (map vad_thinks_this_chunk_is_speech (pre ++ [b]));
                 last_inactivity_checked := now b;
                 continue_recording := continue;
                 speech_detected := if continue then true else speech_detected _ st;
                 elapsed_time := timedelta_seconds (now b) start_time;
                 sound_file := sound_file _ st ++ [new_data b] |}).
  { unfold record_block, timeout. unfold check_due in Hdue.
    rewrite H2, Hdue, Hwindow. reflexivity. }
  rewrite Hstep. cbn zeta. split.
  - intros Hlow.
    assert (E : Qle_bool (speech_likelihood_threshold cfg) share = false).
    { destruct (Qle_bool (speech_likelihood_threshold cfg) share) eqn:E;
        [|reflexivity].
      apply Qle_bool_iff in E. exfalso. exact (Qlt_not_le _ _ Hlow E). }
    rewrite E. rewrite record_stopped by reflexivity.
    unfold keeps_recording. cbn [continue_recording andb speech_detected].
    rewrite H4. reflexivity.
  - intros Hhigh. apply Qle_bool_iff in Hhigh. rewrite Hhigh.
    match goal with
    | |- context [record Data cfg None start_time maxlen post ?s] =>
        pose proof (untimed_speech_detected_stays Data cfg start_time maxlen
                      post s eq_refl) as Hs
    end.
    rewrite Hs.
    match goal with
    | |- context [if ?c then WaitingForBlock Data else _] => destruct c
    end; intros H; discriminate H.
Qed.

Lemma untimed_listen_hinges_on_first_check_witness :
  let cfg := {| inactivity_timeout_seconds := 1; frame_duration := 500;
                speech_likelihood_threshold := 0.5 |}%Q in
  let block (speech : bool) (t : Z) :=
    {| new_data := t; vad_thinks_this_chunk_is_speech := speech; now := t |} in
  listen Z cfg None 0 0
    ([block true 300000] ++ block false 1100000 :: [block true 1500000])%Z
  <> EmptyAudio Z
  /\ listen Z cfg None 0 0
       ([block false 300000] ++ block false 1100000 :: [block true 1500000])%Z
     = EmptyAudio Z.
Proof.
  cbn zeta. split.
  - refine (proj2 (untimed_listen_hinges_on_first_check Z
        {| inactivity_timeout_seconds := 1; frame_duration := 500;
           speech_likelihood_threshold := 0.5 |}%Q 0 0 2
        [ {| new_data := 300000%Z; vad_thinks_this_chunk_is_speech := true;
             now := 300000%Z |} ]
        {| new_data := 1100000%Z; vad_thinks_this_chunk_is_speech := false;
           now := 1100000%Z |}
        [ {| new_data := 1500000%Z; vad_thinks_this_chunk_is_speech := true;
             now := 1500000%Z |} ] eq_refl _ eq_refl) _).
    + repeat constructor.
    + vm_compute. discriminate.
  - refine (proj1 (untimed_listen_hinges_on_first_check Z
        {| inactivity_timeout_seconds := 1; frame_duration := 500;
           speech_likelihood_threshold := 0.5 |}%Q 0 0 2
        [ {| new_data := 300000%Z; vad_thinks_this_chunk_is_speech := false;
             now := 300000%Z |} ]
        {| new_data := 1100000%Z; vad_thinks_this_chunk_is_speech := false;
           now := 1100000%Z |}
        [ {| new_data := 1500000%Z; vad_thinks_this_chunk_is_speech := true;
             now := 1500000%Z |} ] eq_refl _ eq_refl) _).
    + repeat constructor.
    + vm_compute. reflexivity.
Defined.
